(** * ginga/util/mosaic.py: the mosaic driver and its command-line entry point

    A shallow embedding of [mosaic] and [main] of [ginga/util/mosaic.py].
    The driver is written in a small monad that threads the interpreter
    state (the object heap and the file system), propagates Python
    exceptions and emits, in order, the log records and the calls made to
    the collaborators the module imports ([loader], [wcs], [dp],
    [AstroImage]).  Numbers that Python holds as floats are exact rationals
    here: the driver itself only applies [math.fabs] and [np.sign] to them,
    both of which are exact. *)

From Stdlib Require Import QArith Qabs Qround.
From Stdlib Require Import DecimalString.
From Stdlib Require DecimalNat.
From stdpp Require Import gmap strings list fin_maps.

Local Open Scope string_scope.
Local Open Scope list_scope.

(** ** Data model *)

(** One entry of the canvas's placement log. *)
Record Placement := mkPlacement {
  pl_source : string;
  pl_offset : Z * Z;
  pl_expanded : bool
}.

(** An image: the ['name'] entry of its metadata, its header (keyword to
    value), its pixel grid as a list of rows, and, for a mosaic canvas, the
    placement log. *)
Record Image := mkImage {
  img_name : option string;
  img_header : gmap string Q;
  img_data : list (list Q);
  img_log : list Placement
}.

(** An element of [itemlist]: an [AstroImage] instance or a file path. *)
Inductive Item :=
| Loaded (image : Image)
| Path (filepath : string).

Inductive FileNode :=
| RegularFile (content : Image)
| Directory.

(** The interpreter state the driver can touch: image objects that live on
    the heap and are handled by reference (the canvas), and the files. *)
Record State := mkState {
  heap : list Image;
  fs : gmap string FileNode
}.

Inductive Exn :=
| NameError (name : string)
| IndexError
| KeyError (kwd : string)
| LoadError (path : string)
| WcsResolutionError
| AllocationError
| OutOfBoundsError (source : string)
| OSError (path : string)
| ReferenceError (loc : nat).

Inductive Result (A : Type) :=
| Ok (a : A)
| Raise (e : Exn).
Arguments Ok {A} a.
Arguments Raise {A} e.

(** ** What a run emits *)

Inductive Level := Debug | Info | Warning | Error.

Inductive LogMsg :=
| MsgReading (filepath : string)
| MsgImage0 (rot cdelt1 cdelt2 : Q)
| MsgMosaic (rot cdelt1 cdelt2 : Q)
| MsgProcessing (name : string)
| MsgInlining (name : string)
| MsgPlacement (tup : list Placement)
| MsgDone
| MsgWriting (outfile : string).

Inductive Event :=
| EvLog (logger : string) (lvl : Level) (msg : LogMsg)
| EvLoadData (filepath : string)
| EvIoFitsLoadFile (filepath : string)
| EvRotationAndScale (hdr : gmap string Q)
| EvCreateBlank (ra_deg dec_deg : Q) (fov_deg : option Q)
                (px_scale rot_deg : Q) (cdbase : Q * Q)
| EvInline (canvas : nat) (images : list Image) (allow_expand : option bool)
| EvIoFitsUse (pkg : string)
| EvRemove (path : string)
| EvSaveAsFile (canvas : nat) (path : string).

(** ** The monad: state, exceptions, emitted events *)

Definition M (A : Type) : Type := State -> Result A * State * list Event.

Definition ret {A} (a : A) : M A := fun s => (Ok a, s, []).

Definition raise {A} (e : Exn) : M A := fun s => (Raise e, s, []).

Definition bind {A B} (m : M A) (f : A -> M B) : M B :=
  fun s =>
    match m s with
    | (Ok a, s1, t1) =>
        match f a s1 with
        | (r, s2, t2) => (r, s2, t1 ++ t2)
        end
    | (Raise e, s1, t1) => (Raise e, s1, t1)
    end.

Notation "x <- m ;; k" := (bind m (fun x => k))
  (at level 100, m at next level, k at level 200, right associativity).
Notation "m ;; k" := (bind m (fun _ => k))
  (at level 100, k at level 200, right associativity).

Definition emit (e : Event) : M unit := fun s => (Ok tt, s, [e]).

Definition lift {A} (r : Result A) : M A := fun s => (r, s, []).

(** [try: m except OSError: pass] *)
Definition ignore_OSError (m : M unit) : M unit :=
  fun s =>
    match m s with
    | (Raise (OSError _), s1, t1) => (Ok tt, s1, t1)
    | o => o
    end.

Definition result_of {A} (o : Result A * State * list Event) : Result A := fst (fst o).
Definition state_of {A} (o : Result A * State * list Event) : State := snd (fst o).
Definition events_of {A} (o : Result A * State * list Event) : list Event := snd o.

(** ** Names and library functions *)

(** The names bound in the module's global namespace once it is imported:
    the [import] statements of lines 13-21 and the two [def]s. *)
Definition module_globals : list string :=
  ["sys"; "os"; "math"; "np"; "AstroImage"; "wcs"; "loader"; "dp"; "log";
   "mosaic"; "main"].

(** Looking a global name up in namespace [g]; none of the names the
    module uses is a builtin. *)
Definition global (g : list string) (n : string) : M unit :=
  if existsb (String.eqb n) g then ret tt else raise (NameError n).

Definition math_fabs (x : Q) : Q := Qabs x.

Definition np_sign (x : Q) : Q := inject_Z (Z.sgn (Qnum x)).

(** ['image%d' % (count)] *)
Definition default_name (count : nat) : string :=
  "image" ++ NilEmpty.string_of_uint (Nat.to_uint count).

(** ** Image methods used by the driver *)

(** [image.get('name', dflt)] *)
Definition image_get_name (image : Image) (dflt : string) : string :=
  match img_name image with
  | Some n => n
  | None => dflt
  end.

(** [image.get_keyword(kwd)] *)
Definition get_keyword (image : Image) (kwd : string) : M Q :=
  match img_header image !! kwd with
  | Some v => ret v
  | None => raise (KeyError kwd)
  end.

(** [image.get_keywords_list(k1, k2)] *)
Definition get_keywords_list (image : Image) (k1 k2 : string) : M (Q * Q) :=
  v1 <- get_keyword image k1 ;;
  v2 <- get_keyword image k2 ;;
  ret (v1, v2).

(** ** Collaborators

    The functions the module calls in other modules of the package.  Each
    may fail with an exception.  [mosaic_inline] works on the canvas it is
    called on: it gets the canvas's current contents and gives back the
    contents it leaves behind, also when it raises. *)
Record Collaborators := mkCollaborators {
  loader_load_data : gmap string FileNode -> string -> Result Image;
  io_fits_load_file : gmap string FileNode -> string -> Result Image;
  wcs_get_rotation_and_scale : gmap string Q -> Result (Q * Q * Q);
  dp_create_blank_image :
    Q -> Q -> option Q -> Q -> Q -> Q * Q -> Result Image;
  image_mosaic_inline :
    Image -> list Image -> option bool -> Image * Result (list Placement);
  image_save_as_file :
    Image -> string -> gmap string FileNode ->
    gmap string FileNode * Result unit
}.

(** ** The driver *)

Section Driver.

(** [g] is the module's global namespace at the time of the call and
    [W] the behaviour of the collaborators. *)
Variable g : list string.
Variable W : Collaborators.

Definition logger_info (logger : string) (msg : LogMsg) : M unit :=
  emit (EvLog logger Info msg).

Definition logger_debug (logger : string) (msg : LogMsg) : M unit :=
  emit (EvLog logger Debug msg).

(** A new object on the heap; its reference is returned. *)
Definition alloc (image : Image) : M nat :=
  fun s => (Ok (length (heap s)), mkState (heap s ++ [image]) (fs s), []).

Definition deref (c : nat) : M Image :=
  fun s =>
    match heap s !! c with
    | Some image => (Ok image, s, [])
    | None => (Raise (ReferenceError c), s, [])
    end.

Definition store (c : nat) (image : Image) : M unit :=
  fun s => (Ok tt, mkState (<[c := image]> (heap s)) (fs s), []).

(** [loader.load_data(filepath, logger=logger)] *)
Definition call_load_data (filepath : string) : M Image :=
  global g "loader" ;;
  emit (EvLoadData filepath) ;;
  fun s => (loader_load_data W (fs s) filepath, s, []).

(** [io_fits.load_file(filepath, logger=logger)] *)
Definition call_io_fits_load_file (filepath : string) : M Image :=
  global g "io_fits" ;;
  emit (EvIoFitsLoadFile filepath) ;;
  fun s => (io_fits_load_file W (fs s) filepath, s, []).

(** [wcs.get_rotation_and_scale(header)] *)
Definition call_get_rotation_and_scale (hdr : gmap string Q) : M (Q * Q * Q) :=
  global g "wcs" ;;
  emit (EvRotationAndScale hdr) ;;
  lift (wcs_get_rotation_and_scale W hdr).

(** [dp.create_blank_image(ra_deg, dec_deg, fov_deg, px_scale, rot_deg,
    cdbase=cdbase, logger=logger)]: the new image is a new object. *)
Definition call_create_blank_image (ra_deg dec_deg : Q) (fov_deg : option Q)
    (px_scale rot_deg : Q) (cdbase : Q * Q) : M nat :=
  global g "dp" ;;
  emit (EvCreateBlank ra_deg dec_deg fov_deg px_scale rot_deg cdbase) ;;
  image <- lift (dp_create_blank_image W ra_deg dec_deg fov_deg px_scale
                   rot_deg cdbase) ;;
  alloc image.

(** [img_mosaic.mosaic_inline(images)] or
    [img_mosaic.mosaic_inline(images, allow_expand=b)]: the object that
    [img_mosaic] refers to is updated where it is. *)
Definition call_mosaic_inline (img_mosaic : nat) (images : list Image)
    (allow_expand : option bool) : M (list Placement) :=
  emit (EvInline img_mosaic images allow_expand) ;;
  canvas <- deref img_mosaic ;;
  let (canvas', r) := image_mosaic_inline W canvas images allow_expand in
  store img_mosaic canvas' ;;
  lift r.

(** [itemlist[0]] *)
Definition item_0 (itemlist : list Item) : M Item :=
  match itemlist with
  | item :: _ => ret item
  | [] => raise IndexError
  end.

(** Lines 71-85: the loop over [itemlist[1:]]. *)
Fixpoint mosaic_loop (logger : string) (img_mosaic : nat) (count : nat)
    (items : list Item) : M unit :=
  match items with
  | [] => ret tt
  | item :: rest =>
      global g "AstroImage" ;;
      image <- match item with
               | Loaded image => ret image
               | Path filepath =>
                   logger_info logger (MsgReading filepath) ;;
                   call_io_fits_load_file filepath
               end ;;
      let name := image_get_name image (default_name count) in
      logger_debug logger (MsgInlining name) ;;
      tup <- call_mosaic_inline img_mosaic [image] None ;;
      logger_debug logger (MsgPlacement tup) ;;
      mosaic_loop logger img_mosaic (S count) rest
  end.

(** Lines 34-42: item 0 becomes [image0], with the name it is reported
    under. *)
Definition resolve_item_0 (logger : string) (itemlist : list Item)
    : M (Image * string) :=
  item <- item_0 itemlist ;;
  global g "AstroImage" ;;
  match item with
  | Loaded image0 => ret (image0, image_get_name image0 "image0")
  | Path filepath =>
      logger_info logger (MsgReading filepath) ;;
      image0 <- call_load_data filepath ;;
      ret (image0, filepath)
  end.

(** Lines 34-68: from the first item to its placement on the new
    canvas; the reference to the canvas is the result. *)
Definition mosaic_first (logger : string) (itemlist : list Item)
    (fov_deg : option Q) : M nat :=
  r0 <- resolve_item_0 logger itemlist ;;
  let '(image0, name) := r0 in
  crval <- get_keywords_list image0 "CRVAL1" "CRVAL2" ;;
  let '(ra_deg, dec_deg) := crval in
  let header := img_header image0 in
  rs <- call_get_rotation_and_scale header ;;
  let '(rot_deg, cdelt1, cdelt2) := rs in
  logger_debug logger (MsgImage0 rot_deg cdelt1 cdelt2) ;;
  global g "math" ;;
  let px_scale := math_fabs cdelt1 in
  let expand := match fov_deg with None => true | Some _ => false end in
  global g "np" ;;
  let cdbase := (np_sign cdelt1, np_sign cdelt2) in
  img_mosaic <- call_create_blank_image ra_deg dec_deg fov_deg px_scale
                  rot_deg cdbase ;;
  canvas <- deref img_mosaic ;;
  let header := img_header canvas in
  rs' <- call_get_rotation_and_scale header ;;
  let '(rot, cdelt1', cdelt2') := rs' in
  logger_debug logger (MsgMosaic rot cdelt1' cdelt2') ;;
  logger_debug logger (MsgProcessing name) ;;
  tup <- call_mosaic_inline img_mosaic [image0] (Some expand) ;;
  logger_debug logger (MsgPlacement tup) ;;
  ret img_mosaic.

(** [mosaic(logger, itemlist, fov_deg=None)], run in namespace [g]. *)
Definition mosaic_in (logger : string) (itemlist : list Item)
    (fov_deg : option Q) : M nat :=
  img_mosaic <- mosaic_first logger itemlist fov_deg ;;
  mosaic_loop logger img_mosaic 1 (tail itemlist) ;;
  logger_info logger MsgDone ;;
  ret img_mosaic.

(** *** The command line *)

Record Options := mkOptions {
  opt_fov : option Q;
  opt_outfile : option string
}.

(** [os.remove(path)] *)
Definition os_remove (path : string) : M unit :=
  global g "os" ;;
  emit (EvRemove path) ;;
  fun s =>
    match fs s !! path with
    | Some (RegularFile _) => (Ok tt, mkState (heap s) (delete path (fs s)), [])
    | _ => (Raise (OSError path), s, [])
    end.

(** [img_mosaic.save_as_file(outfile)] *)
Definition call_save_as_file (img_mosaic : nat) (outfile : string) : M unit :=
  emit (EvSaveAsFile img_mosaic outfile) ;;
  canvas <- deref img_mosaic ;;
  fun s =>
    let (fs', r) := image_save_as_file W canvas outfile (fs s) in
    (r, mkState (heap s) fs', []).

(** The truth value of [options.outfile]: [None] and the empty string
    are false. *)
Definition outfile_given (options : Options) : option string :=
  match opt_outfile options with
  | Some "" => None
  | o => o
  end.

(** [main(options, args)], run in namespace [g]. *)
Definition main_in (options : Options) (args : list Item) : M unit :=
  global g "log" ;;
  let logger := "mosaic" in
  global g "mosaic" ;;
  img_mosaic <- mosaic_in logger args (opt_fov options) ;;
  match outfile_given options with
  | Some outfile =>
      global g "io_fits" ;;
      emit (EvIoFitsUse "astropy") ;;
      logger_info logger (MsgWriting outfile) ;;
      ignore_OSError (os_remove outfile) ;;
      call_save_as_file img_mosaic outfile
  | None => ret tt
  end.

End Driver.

(** The module as it is written: its functions run in [module_globals]. *)
Definition mosaic := mosaic_in module_globals.
Definition main := main_in module_globals.

(** The script, run with neither [--debug] nor [--profile]: the positional
    arguments are paths, and an exception that leaves [main] ends the
    process with status 1. *)
Definition script (W : Collaborators) (options : Options) (argv : list string)
    (s : State) : Z * State * list Event :=
  match main W options (map Path argv) s with
  | (Ok _, s', t) => (0%Z, s', t)
  | (Raise _, s', t) => (1%Z, s', t)
  end.

(** ** The collaborators as the specification describes them

    The sources of [wcs.get_rotation_and_scale], [dp.create_blank_image],
    [AstroImage.mosaic_inline], the loader and the writer are not part of
    the material; the definitions below follow sections 3, 4.1-4.3 and 6 of
    the specification. *)

Module SpecModel.

(** Modelled from the spec: the WCS Parameter Extractor (4.1),
    [wcs.get_rotation_and_scale], is missing.  The header holds a scale
    per axis and a rotation angle (section 3), under the FITS keywords
    [CDELT1], [CDELT2] and [CROTA2]; an absent keyword is a
    [WcsResolutionError]. *)
Definition extract (hdr : gmap string Q) : Result (Q * Q * Q) :=
  match hdr !! "CROTA2", hdr !! "CDELT1", hdr !! "CDELT2" with
  | Some rot, Some scale_x, Some scale_y => Ok (rot, scale_x, scale_y)
  | _, _, _ => Raise WcsResolutionError
  end.

(** The background value of a blank or padded pixel. *)
Definition fill : Q := 0%Q.

Definition blank_grid (width height : nat) : list (list Q) :=
  repeat (repeat fill width) height.

Definition grid_height (grid : list (list Q)) : Z :=
  Z.of_nat (length grid).

Definition grid_width (grid : list (list Q)) : Z :=
  match grid with
  | row :: _ => Z.of_nat (length row)
  | [] => 0%Z
  end.

(** The header of a [side] by [side] canvas: the reference sky position
    at the grid centre, the rotation and the signed scales. *)
Definition canvas_header (ra_deg dec_deg : Q) (side : Z) (px_scale rot_deg : Q)
    (axis_signs : Q * Q) : gmap string Q :=
  <["CRVAL1" := ra_deg]> (
  <["CRVAL2" := dec_deg]> (
  <["CRPIX1" := (inject_Z side / 2)%Q]> (
  <["CRPIX2" := (inject_Z side / 2)%Q]> (
  <["CDELT1" := (fst axis_signs * px_scale)%Q]> (
  <["CDELT2" := (snd axis_signs * px_scale)%Q]> (
  <["CROTA2" := rot_deg]> ∅)))))).

(** Modelled from the spec: the Canvas Allocator (4.2),
    [dp.create_blank_image], is missing.  Without a field of view the
    canvas is a 1x1 placeholder; with one it is a square grid of
    [fov_deg / px_scale] pixels per side; a field of view that is
    negative, zero or smaller than a pixel is an [AllocationError]. *)
Definition allocate (ra_deg dec_deg : Q) (fov_deg : option Q)
    (px_scale rot_deg : Q) (axis_signs : Q * Q) : Result Image :=
  match fov_deg with
  | None =>
      Ok (mkImage None
            (canvas_header ra_deg dec_deg 1 px_scale rot_deg axis_signs)
            (blank_grid 1 1) [])
  | Some fov =>
      if Qle_bool fov 0 then Raise AllocationError
      else
        let side := Qfloor (fov / px_scale) in
        if (side <? 1)%Z then Raise AllocationError
        else
          Ok (mkImage None
                (canvas_header ra_deg dec_deg side px_scale rot_deg axis_signs)
                (blank_grid (Z.to_nat side) (Z.to_nat side)) [])
  end.

(** *** The compositor (4.3) *)

Section Compositor.

(** Steps 1 and 2 belong to the WCS primitives (section 6): where on the
    canvas the image's lower left pixel falls, and the image's pixels
    resampled to the canvas's grid. *)
Variable footprint :
  gmap string Q -> Image -> Result (Z * Z * list (list Q)).

(** The expansion policy of a call that passes no [allow_expand]. *)
Variable default_expand : bool.

Definition expansion (allow_expand : option bool) : bool :=
  match allow_expand with
  | Some b => b
  | None => default_expand
  end.

(** Whether a block placed at [(x0, y0)] lies within the canvas. *)
Definition fits (canvas : Image) (x0 y0 : Z) (block : list (list Q)) : bool :=
  (0 <=? x0)%Z && (0 <=? y0)%Z
  && (x0 + grid_width block <=? grid_width (img_data canvas))%Z
  && (y0 + grid_height block <=? grid_height (img_data canvas))%Z.

Definition pad_row (left right : nat) (row : list Q) : list Q :=
  repeat fill left ++ row ++ repeat fill right.

Definition shift_keyword (kwd : string) (d : Z) (hdr : gmap string Q)
    : gmap string Q :=
  match hdr !! kwd with
  | Some v => <[kwd := (v + inject_Z d)%Q]> hdr
  | None => hdr
  end.

(** Step 3, growing: the grid is padded with [fill] on every side the
    block sticks out of, and the reference pixel moves with the old
    content. *)
Definition grow (canvas : Image) (x0 y0 : Z) (block : list (list Q)) : Image :=
  let wd := grid_width (img_data canvas) in
  let ht := grid_height (img_data canvas) in
  let dx := Z.max 0 (- x0) in
  let dy := Z.max 0 (- y0) in
  let wd' := Z.max (wd + dx) (x0 + dx + grid_width block) in
  let ht' := Z.max (ht + dy) (y0 + dy + grid_height block) in
  let rows :=
    map (pad_row (Z.to_nat dx) (Z.to_nat (wd' - wd - dx))) (img_data canvas) in
  let blank := repeat fill (Z.to_nat wd') in
  mkImage (img_name canvas)
    (shift_keyword "CRPIX1" dx (shift_keyword "CRPIX2" dy (img_header canvas)))
    (repeat blank (Z.to_nat dy) ++ rows ++ repeat blank (Z.to_nat (ht' - ht - dy)))
    (img_log canvas).

Definition blit_row (x0 : nat) (src dst : list Q) : list Q :=
  take x0 dst ++ src ++ drop (x0 + length src) dst.

Fixpoint blit_rows (x0 : nat) (block rows : list (list Q)) : list (list Q) :=
  match block, rows with
  | src :: block', dst :: rows' => blit_row x0 src dst :: blit_rows x0 block' rows'
  | _, _ => rows
  end.

(** Step 4: the block overwrites what the canvas holds there. *)
Definition blit (x0 y0 : nat) (block grid : list (list Q)) : list (list Q) :=
  take y0 grid ++ blit_rows x0 block (drop y0 grid).

Definition source_name (image : Image) : string :=
  image_get_name image "NoName".

(** One image: steps 1 to 5. *)
Definition inline_one (canvas image : Image) (allow_expand : bool)
    : Image * Result Placement :=
  match footprint (img_header canvas) image with
  | Raise e => (canvas, Raise e)
  | Ok (x0, y0, block) =>
      if fits canvas x0 y0 block then
        let rec := mkPlacement (source_name image) (x0, y0) false in
        (mkImage (img_name canvas) (img_header canvas)
           (blit (Z.to_nat x0) (Z.to_nat y0) block (img_data canvas))
           (img_log canvas ++ [rec]), Ok rec)
      else if allow_expand then
        let grown := grow canvas x0 y0 block in
        let x1 := (x0 + Z.max 0 (- x0))%Z in
        let y1 := (y0 + Z.max 0 (- y0))%Z in
        let rec := mkPlacement (source_name image) (x1, y1) true in
        (mkImage (img_name grown) (img_header grown)
           (blit (Z.to_nat x1) (Z.to_nat y1) block (img_data grown))
           (img_log grown ++ [rec]), Ok rec)
      else (canvas, Raise (OutOfBoundsError (source_name image)))
  end.

(** Modelled from the spec: the Mosaic Compositor (4.3),
    [AstroImage.mosaic_inline], is missing.  The images are placed in
    the given order; the first failure ends the call. *)
Fixpoint inline (canvas : Image) (images : list Image)
    (allow_expand : option bool) : Image * Result (list Placement) :=
  match images with
  | [] => (canvas, Ok [])
  | image :: rest =>
      match inline_one canvas image (expansion allow_expand) with
      | (canvas1, Raise e) => (canvas1, Raise e)
      | (canvas1, Ok rec) =>
          match inline canvas1 rest allow_expand with
          | (canvas2, Ok recs) => (canvas2, Ok (rec :: recs))
          | (canvas2, Raise e) => (canvas2, Raise e)
          end
      end
  end.

End Compositor.

(** A WCS primitive for images that share the canvas's rotation and
    scale: the image's reference pixel goes where its reference sky
    position falls on the canvas, and no resampling is needed. *)
Definition aligned_footprint (canvas_hdr : gmap string Q) (image : Image)
    : Result (Z * Z * list (list Q)) :=
  let hdr := img_header image in
  match canvas_hdr !! "CRVAL1", canvas_hdr !! "CRVAL2",
        canvas_hdr !! "CRPIX1", canvas_hdr !! "CRPIX2",
        canvas_hdr !! "CDELT1", canvas_hdr !! "CDELT2",
        hdr !! "CRVAL1", hdr !! "CRVAL2", hdr !! "CRPIX1", hdr !! "CRPIX2"
  with
  | Some ra, Some dec, Some cx, Some cy, Some sx, Some sy,
    Some ra', Some dec', Some px, Some py =>
      Ok (Qfloor (cx + (ra' - ra) / sx - px)%Q,
          Qfloor (cy + (dec' - dec) / sy - py)%Q,
          img_data image)
  | _, _, _, _, _, _, _, _, _, _ => Raise WcsResolutionError
  end.

(** Modelled from the spec: the image loader (section 6) is missing.  A
    path that does not hold an image file is a [LoadError]. *)
Definition load (files : gmap string FileNode) (path : string) : Result Image :=
  match files !! path with
  | Some (RegularFile image) => Ok image
  | _ => Raise (LoadError path)
  end.

(** Modelled from the spec: the writer (section 6) is missing.  The
    canvas becomes the file at the path, unless the path is a directory. *)
Definition save (canvas : Image) (path : string) (files : gmap string FileNode)
    : gmap string FileNode * Result unit :=
  match files !! path with
  | Some Directory => (files, Raise (OSError path))
  | _ => (<[path := RegularFile canvas]> files, Ok tt)
  end.

Definition collaborators (default_expand : bool) : Collaborators :=
  mkCollaborators load load extract allocate
    (inline aligned_footprint default_expand) save.

End SpecModel.

(** ** Reading a run *)

(** The calls to [mosaic_inline] among the events, in order: the canvas
    called on, the images passed and the [allow_expand] argument, if any. *)
Definition inline_calls (t : list Event) : list (nat * list Image * option bool) :=
  omap (fun e => match e with
                 | EvInline c images flag => Some (c, images, flag)
                 | _ => None
                 end) t.

(** The calls to [create_blank_image] among the events, in order. *)
Definition create_calls (t : list Event)
    : list (Q * Q * option Q * Q * Q * (Q * Q)) :=
  omap (fun e => match e with
                 | EvCreateBlank ra dec fov px rot cdbase =>
                     Some (ra, dec, fov, px, rot, cdbase)
                 | _ => None
                 end) t.

(** The levels of the log records among the events. *)
Definition log_levels (t : list Event) : list Level :=
  omap (fun e => match e with
                 | EvLog _ lvl _ => Some lvl
                 | _ => None
                 end) t.

(** The rotation and scales of the canvas that the run reports (the
    log record of line 63). *)
Definition mosaic_params (t : list Event) : list (Q * Q * Q) :=
  omap (fun e => match e with
                 | EvLog _ _ (MsgMosaic rot cdelt1 cdelt2) => Some (rot, cdelt1, cdelt2)
                 | _ => None
                 end) t.

(** [expand] of line 51-54. *)
Definition expand_of (fov_deg : option Q) : bool :=
  match fov_deg with
  | None => true
  | Some _ => false
  end.

(** The image that item 0 stands for in state [s]. *)
Definition image_0 (W : Collaborators) (s : State) (item : Item) : Result Image :=
  match item with
  | Loaded image => Ok image
  | Path filepath => loader_load_data W (fs s) filepath
  end.

(** Placing already loaded images one after the other, as the loop does
    with them: the contents the canvas ends with, and the first exception
    if there is one. *)
Fixpoint place_all (W : Collaborators) (canvas : Image) (images : list Image)
    : Image * Result unit :=
  match images with
  | [] => (canvas, Ok tt)
  | image :: rest =>
      match image_mosaic_inline W canvas [image] None with
      | (canvas', Ok _) => place_all W canvas' rest
      | (canvas', Raise e) => (canvas', Raise e)
      end
  end.

(** [sgn] is the sign of [x] as [np.sign] reports it. *)
Definition sign_matches (x sgn : Q) : Prop :=
  ((x < 0)%Q /\ sgn = (-1)%Q)
  \/ ((x == 0)%Q /\ sgn = 0%Q)
  \/ ((0 < x)%Q /\ sgn = 1%Q).

(** ** Sample inputs *)

Module Examples.

Definition header (ra dec px py sx sy rot : Q) : gmap string Q :=
  <["CRVAL1" := ra]> (
  <["CRVAL2" := dec]> (
  <["CRPIX1" := px]> (
  <["CRPIX2" := py]> (
  <["CDELT1" := sx]> (
  <["CDELT2" := sy]> (
  <["CROTA2" := rot]> ∅)))))).

(** Two 2x2 images side by side on the sky, half a degree per pixel,
    right ascension growing to the left; [image_b] has no name. *)
Definition image_a : Image :=
  mkImage (Some "A") (header 10 20 1 1 (-1 # 2) (1 # 2) 0)
    [[1; 2]; [3; 4]]%Q [].

Definition image_b : Image :=
  mkImage None (header 9 20 1 1 (-1 # 2) (1 # 2) 0)
    [[5; 6]; [7; 8]]%Q [].

(** An image whose pixels are twice as high as wide. *)
Definition image_tall : Image :=
  mkImage (Some "T") (header 10 20 1 1 (-1 # 2) 1 0) [[9]]%Q [].

(** A 2x2 canvas around the sky position of [image_a], which [image_b]
    does not fit on. *)
Definition small_canvas : Image :=
  mkImage None (header 10 20 1 1 (-1 # 2) (1 # 2) 0)
    [[0; 0]; [0; 0]]%Q [].

Definition no_files : State := mkState [] ∅.

Definition two_files : State :=
  mkState []
    (<["a.fits" := RegularFile image_a]> (
     <["b.fits" := RegularFile image_b]> ∅)).

Definition W : Collaborators := SpecModel.collaborators true.

End Examples.

(** ** More readings of a run *)

(** The headers passed to [get_rotation_and_scale], in order. *)
Definition rotation_calls (t : list Event) : list (gmap string Q) :=
  omap (fun e => match e with
                 | EvRotationAndScale hdr => Some hdr
                 | _ => None
                 end) t.

(** The paths passed to [loader.load_data], in order. *)
Definition load_calls (t : list Event) : list string :=
  omap (fun e => match e with
                 | EvLoadData p => Some p
                 | _ => None
                 end) t.

(** The paths passed to [io_fits.load_file], in order. *)
Definition io_fits_calls (t : list Event) : list string :=
  omap (fun e => match e with
                 | EvIoFitsLoadFile p => Some p
                 | _ => None
                 end) t.

(** The names under which the loop reports the items it places (the log
    record of line 82). *)
Definition inlining_names (t : list Event) : list string :=
  omap (fun e => match e with
                 | EvLog _ _ (MsgInlining name) => Some name
                 | _ => None
                 end) t.

(** The names under which item 0 is reported (the log record of line 65). *)
Definition processing_names (t : list Event) : list string :=
  omap (fun e => match e with
                 | EvLog _ _ (MsgProcessing name) => Some name
                 | _ => None
                 end) t.

(** The final log records (line 87), with logger and level. *)
Definition done_records (t : list Event) : list (string * Level) :=
  omap (fun e => match e with
                 | EvLog logger lvl MsgDone => Some (logger, lvl)
                 | _ => None
                 end) t.

(** The name item 0 is reported under (lines 36 and 42). *)
Definition name_0 (item : Item) : string :=
  match item with
  | Loaded image0 => image_get_name image0 "image0"
  | Path filepath => filepath
  end.

(** The paths that [mosaic] hands to [loader.load_data]: item 0, when it
    is a path. *)
Definition loader_paths (itemlist : list Item) : list string :=
  match itemlist with
  | Path filepath :: _ => [filepath]
  | _ => []
  end.

(** The files after [os.remove(path)] inside [try ... except OSError]. *)
Definition removed (path : string) (files : gmap string FileNode)
    : gmap string FileNode :=
  match files !! path with
  | Some (RegularFile _) => delete path files
  | _ => files
  end.

(** * ginga/examples/matplotlib/example2_mpl.py: the viewer's callbacks

    The methods of [FitsViewer] that the constructor wires to the
    widgets and to the viewer, over the fields of the window they read
    and write.  The toolkit, the canvas, the viewer and the loader are
    collaborators. *)

Module Viewer.

(** Python values that reach a callback or go into [params]. *)
Inductive PyVal :=
| PyNone
| PyBool (b : bool)
| PyInt (n : Z)
| PyFloat (x : Q)
| PyStr (s : string).

(** What line 235 formats into the readout: ["RA: %s  DEC: %s  X: %.2f
    Y: %.2f  Value: %s"]. *)
Record Readout := mkReadout {
  ro_ra : string;
  ro_dec : string;
  ro_x : Q;
  ro_y : Q;
  ro_value : PyVal
}.

(** The window: the fields of [FitsViewer] and the state of its widgets
    that the callbacks read or set.  [readout] is [None] as long as the
    label has its initial empty text. *)
Record Window := mkWindow {
  drawtypes : list string;
  drawcolors : list string;
  wdrawtype_index : Z;
  wdrawcolor_index : Z;
  wfill_checkstate : Z;
  walpha_value : Q;
  readout : option Readout;
  shown_image : option Image;
  window_title : string
}.

Inductive Msg :=
| MsgBadConversion (e : Exn)
| MsgModeChanged (mode : string) (tf : PyVal)
| MsgPick (ptype kind : string) (x y : Q)
| MsgEdited (kind : string).

Inductive Event :=
| EvLog (lvl : Level) (msg : Msg)
| EvLoadData (filepath : string)
| EvSetImage (image : Image)
| EvSetDrawtype (kind : string) (params : gmap string PyVal)
| EvSetDrawMode (mode : string)
| EvDeleteAllObjects
| EvGetData (x y : Z)
| EvPixToRaDec (x y : Q)
| EvGetObjectByTag (tag : string)
| EvAddCallback (tag event handler : string) (extra : option string)
| EvSetPickable (tag : string).

(** What the callbacks call outside the class.  [viewer_set_image] gets
    the image the viewer shows and the new one, and gives the image the
    viewer shows afterwards, also when it raises. *)
Record Env := mkEnv {
  load_data : string -> Result Image;
  viewer_set_image : option Image -> Image -> option Image * Result unit;
  viewer_get_data : Z -> Z -> Result PyVal;
  viewer_data_off : Q;
  image_pixtoradec : Image -> Q -> Q -> Result (string * string);
  canvas_set_drawtype : string -> gmap string PyVal -> Result unit;
  canvas_set_draw_mode : string -> Result unit;
  canvas_has_object : string -> Result unit
}.

Definition V (A : Type) : Type := Window -> Result A * Window * list Event.

Definition vret {A} (a : A) : V A := fun w => (Ok a, w, []).

Definition vbind {A B} (m : V A) (f : A -> V B) : V B :=
  fun w =>
    match m w with
    | (Ok a, w1, t1) =>
        match f a w1 with
        | (r, w2, t2) => (r, w2, t1 ++ t2)
        end
    | (Raise e, w1, t1) => (Raise e, w1, t1)
    end.

Declare Scope viewer_scope.
Delimit Scope viewer_scope with viewer.
Notation "x <- m ;; k" := (vbind m (fun x => k))
  (at level 100, m at next level, k at level 200, right associativity)
  : viewer_scope.
Notation "m ;; k" := (vbind m (fun _ => k))
  (at level 100, k at level 200, right associativity) : viewer_scope.
Local Open Scope viewer_scope.

Definition vemit (e : Event) : V unit := fun w => (Ok tt, w, [e]).

Definition vlift {A} (r : Result A) : V A := fun w => (r, w, []).

Definition vget : V Window := fun w => (Ok w, w, []).

Definition vput (w' : Window) : V unit := fun _ => (Ok tt, w', []).

(** [try: m except Exception as e: h e] *)
Definition vtry {A} (m : V A) (h : Exn -> V A) : V A :=
  fun w =>
    match m w with
    | (Raise e, w1, t1) =>
        match h e w1 with
        | (r, w2, t2) => (r, w2, t1 ++ t2)
        end
    | o => o
    end.

(** [l[i]] on a Python list: a negative index counts from the end. *)
Definition py_index {A} (l : list A) (i : Z) : Result A :=
  let n := Z.of_nat (length l) in
  let j := if (i <? 0)%Z then (n + i)%Z else i in
  if (j <? 0)%Z then Raise IndexError
  else match l !! Z.to_nat j with
       | Some x => Ok x
       | None => Raise IndexError
       end.

(** [int(x)] on a float: towards zero. *)
Definition py_int (x : Q) : Z := Z.quot (Qnum x) (Z.pos (Qden x)).

(** The kinds of line 175-176. *)
Definition fillable : list string :=
  ["circle"; "rectangle"; "polygon"; "triangle"; "righttriangle";
   "ellipse"; "square"; "box"].

Section Callbacks.

Variable E : Env.

(** [self.canvas.set_drawtype(kind, **params)] *)
Definition call_set_drawtype (kind : string) (params : gmap string PyVal)
    : V unit :=
  vemit (EvSetDrawtype kind params) ;;
  vlift (canvas_set_drawtype E kind params).

(** Lines 165-180.  The argument is what the signal carries. *)
Definition set_drawparams (kind : PyVal) : V unit :=
  w <- vget ;;
  let index := wdrawtype_index w in
  kind <- vlift (py_index (drawtypes w) index) ;;
  let index := wdrawcolor_index w in
  let fill := negb (wfill_checkstate w =? 0)%Z in
  let alpha := walpha_value w in
  color <- vlift (py_index (drawcolors w) index) ;;
  let params : gmap string PyVal :=
    <["alpha" := PyFloat alpha]> (<["color" := PyStr color]> ∅) in
  let params :=
    if existsb (String.eqb kind) fillable
    then <["fillalpha" := PyFloat alpha]> (<["fill" := PyBool fill]> params)
    else params in
  call_set_drawtype kind params.

(** Lines 182-183. *)
Definition clear_canvas : V unit := vemit EvDeleteAllObjects.

(** [self.fitsimage.set_image(image)] *)
Definition call_set_image (image : Image) : V unit :=
  vemit (EvSetImage image) ;;
  w <- vget ;;
  let (shown, r) := viewer_set_image E (shown_image w) image in
  vput (mkWindow (drawtypes w) (drawcolors w) (wdrawtype_index w)
          (wdrawcolor_index w) (wfill_checkstate w) (walpha_value w)
          (readout w) shown (window_title w)) ;;
  vlift r.

(** [self.setWindowTitle(title)] *)
Definition set_window_title (title : string) : V unit :=
  w <- vget ;;
  vput (mkWindow (drawtypes w) (drawcolors w) (wdrawtype_index w)
          (wdrawcolor_index w) (wfill_checkstate w) (walpha_value w)
          (readout w) (shown_image w) title).

(** Lines 185-188. *)
Definition load_file (filepath : string) : V unit :=
  vemit (EvLoadData filepath) ;;
  image <- vlift (load_data E filepath) ;;
  call_set_image image ;;
  set_window_title filepath.

(** What [QFileDialog.getOpenFileName] returns: a tuple whose first
    component is the file name, or an object whose [str] is. *)
Inductive DialogResult :=
| ResTuple (fileName selectedFilter : string)
| ResOther (str : string).

(** Lines 190-198, on the dialog's answer. *)
Definition open_file (res : DialogResult) : V unit :=
  let fileName := match res with
                  | ResTuple fileName _ => fileName
                  | ResOther str => str
                  end in
  if negb (Nat.eqb (String.length fileName) 0) then load_file fileName
  else vret tt.

(** Lines 200-202. *)
Definition drop_file_cb (paths : list string) : V unit :=
  fileName <- vlift (py_index paths 0) ;;
  load_file fileName.

(** [viewer.get_data(x, y)] *)
Definition call_get_data (x y : Z) : V PyVal :=
  vemit (EvGetData x y) ;;
  vlift (viewer_get_data E x y).

(** [image.pixtoradec(x, y, format='str', coords='fits')] *)
Definition call_pixtoradec (image : Image) (x y : Q) : V (string * string) :=
  vemit (EvPixToRaDec x y) ;;
  vlift (image_pixtoradec E image x y).

(** [self.readout.setText(text)] *)
Definition set_readout (text : Readout) : V unit :=
  w <- vget ;;
  vput (mkWindow (drawtypes w) (drawcolors w) (wdrawtype_index w)
          (wdrawcolor_index w) (wfill_checkstate w) (walpha_value w)
          (Some text) (shown_image w) (window_title w)).

(** Lines 204-237.  The viewer that calls back is [self.fitsimage]
    (line 49), whose image is the one [load_file] set.  The second [try]
    gives [None] when it returns from the method. *)
Definition cursor_cb (data_x data_y : Q) : V unit :=
  value <- vtry
             (call_get_data (py_int (data_x + viewer_data_off E))
                (py_int (data_y + viewer_data_off E)))
             (fun _ => vret PyNone) ;;
  let fits_x := (data_x + 1)%Q in
  let fits_y := (data_y + 1)%Q in
  radec <- vtry
             (w <- vget ;;
              match shown_image w with
              | None => vret None
              | Some image =>
                  txt <- call_pixtoradec image fits_x fits_y ;;
                  vret (Some txt)
              end)
             (fun e =>
                vemit (EvLog Warning (MsgBadConversion e)) ;;
                vret (Some ("BAD WCS", "BAD WCS"))) ;;
  match radec with
  | None => vret tt
  | Some (ra_txt, dec_txt) =>
      set_readout (mkReadout ra_txt dec_txt fits_x fits_y value)
  end.

(** [tf is False] *)
Definition is_False (tf : PyVal) : bool :=
  match tf with
  | PyBool false => true
  | _ => false
  end.

(** Lines 239-243. *)
Definition set_mode_cb (mode : string) (tf : PyVal) : V bool :=
  vemit (EvLog Info (MsgModeChanged mode tf)) ;;
  (if negb (is_False tf)
   then vemit (EvSetDrawMode mode) ;; vlift (canvas_set_draw_mode E mode)
   else vret tt) ;;
  vret true.

(** The registrations of lines 247-253: event and extra argument. *)
Definition pick_events : list (string * string) :=
  [("pick-down", "down"); ("pick-up", "up"); ("pick-move", "move");
   ("pick-hover", "hover"); ("pick-enter", "enter"); ("pick-leave", "leave");
   ("pick-key", "key")].

Fixpoint add_pick_callbacks (tag : string) (events : list (string * string))
    : V unit :=
  match events with
  | [] => vret tt
  | (event, ptype) :: rest =>
      vemit (EvAddCallback tag event "pick_cb" (Some ptype)) ;;
      add_pick_callbacks tag rest
  end.

(** Lines 245-255. *)
Definition draw_cb (tag : string) : V unit :=
  vemit (EvGetObjectByTag tag) ;;
  vlift (canvas_has_object E tag) ;;
  add_pick_callbacks tag pick_events ;;
  vemit (EvSetPickable tag) ;;
  vemit (EvAddCallback tag "edited" "edit_cb" None).

(** Lines 257-260. *)
Definition pick_cb (kind : string) (pt : Q * Q) (ptype : string) : V bool :=
  vemit (EvLog Info (MsgPick ptype kind (fst pt) (snd pt))) ;;
  vret true.

(** Lines 262-264. *)
Definition edit_cb (kind : string) : V bool :=
  vemit (EvLog Info (MsgEdited kind)) ;;
  vret true.

(** The signals the constructor connects (lines 48-49, 71, 96, 104, 108,
    115, 119, 121, 140, 146, 152), each with what it carries. *)
Inductive Signal :=
| DrawtypeActivated (index : Z)
| DrawcolorActivated (index : Z)
| FillStateChanged (state : Z)
| AlphaValueChanged (value : Q)
| ClearClicked
| OpenClicked (res : DialogResult)
| DragDrop (paths : list string)
| CursorChanged (data_x data_y : Q)
| DrawToggled (val : bool)
| EditToggled (val : bool)
| PickToggled (val : bool)
| DrawEvent (tag : string).

Definition forget {A} (m : V A) : V unit := vbind m (fun _ => vret tt).

(** The slot each signal is connected to. *)
Definition handle (sig : Signal) : V unit :=
  match sig with
  | DrawtypeActivated index => set_drawparams (PyInt index)
  | DrawcolorActivated index => set_drawparams (PyInt index)
  | FillStateChanged state => set_drawparams (PyInt state)
  | AlphaValueChanged value => set_drawparams (PyFloat value)
  | ClearClicked => clear_canvas
  | OpenClicked res => open_file res
  | DragDrop paths => drop_file_cb paths
  | CursorChanged data_x data_y => cursor_cb data_x data_y
  | DrawToggled val => forget (set_mode_cb "draw" (PyBool val))
  | EditToggled val => forget (set_mode_cb "edit" (PyBool val))
  | PickToggled val => forget (set_mode_cb "pick" (PyBool val))
  | DrawEvent tag => draw_cb tag
  end.

End Callbacks.

(** The calls to [set_drawtype] among the events. *)
Definition drawtype_calls (t : list Event) : list (string * gmap string PyVal) :=
  omap (fun e => match e with
                 | EvSetDrawtype kind params => Some (kind, params)
                 | _ => None
                 end) t.

(** The calls to [set_draw_mode] among the events. *)
Definition mode_calls (t : list Event) : list string :=
  omap (fun e => match e with
                 | EvSetDrawMode mode => Some mode
                 | _ => None
                 end) t.

(** The registrations among the events: event, handler and extra
    argument, with the tag of the object. *)
Definition registrations (t : list Event)
    : list (string * string * string * option string) :=
  omap (fun e => match e with
                 | EvAddCallback tag event handler extra =>
                     Some (tag, event, handler, extra)
                 | _ => None
                 end) t.

(** A registration that fits the handlers: [pick_cb] for a pick event,
    told the part of the event's name after "pick-", or [edit_cb] for
    "edited" with nothing more. *)
Definition registration_fits (tag : string)
    (reg : string * string * string * option string) : Prop :=
  match reg with
  | (tag', event, handler, extra) =>
      tag' = tag
      /\ ((handler = "pick_cb"
           /\ exists ptype,
                extra = Some ptype /\ event = String.append "pick-" ptype)
          \/ (handler = "edit_cb" /\ event = "edited" /\ extra = None))
  end.

(** The paths passed to [load_data] among the events. *)
Definition load_requests (t : list Event) : list string :=
  omap (fun e => match e with
                 | EvLoadData p => Some p
                 | _ => None
                 end) t.

(** The warnings among the events. *)
Definition warnings (t : list Event) : list Msg :=
  omap (fun e => match e with
                 | EvLog Warning msg => Some msg
                 | _ => None
                 end) t.


(** The widget settings of a window: what the combo boxes, the check
    box and the spin box hold. *)
Definition settings (w : Window)
    : list string * list string * Z * Z * Z * Q :=
  (drawtypes w, drawcolors w, wdrawtype_index w, wdrawcolor_index w,
   wfill_checkstate w, walpha_value w).

(** The file name that the dialog's answer stands for (lines 193-196). *)
Definition dialog_name (res : DialogResult) : string :=
  match res with
  | ResTuple fileName _ => fileName
  | ResOther str => str
  end.

(** [set_image] shows the new image when it returns and keeps the old
    one when it raises. *)
Definition set_image_atomic (E : Env) : Prop :=
  forall shown image,
    match viewer_set_image E shown image with
    | (shown', Ok _) => shown' = Some image
    | (shown', Raise _) => shown' = shown
    end.

(** The title names the file that the shown image was loaded from. *)
Definition title_matches_image (E : Env) (w : Window) : Prop :=
  match shown_image w with
  | Some image => load_data E (window_title w) = Ok image
  | None => True
  end.

(** A window as the constructor leaves it, with draw types and colours
    as the canvas and [colors] give them. *)
Definition sample_window : Window :=
  mkWindow ["line"; "rectangle"; "text"] ["black"; "lightblue"] 1 1 2 (1 # 2)
    None None "".

(** Collaborators that know one file. *)
Definition sample_env : Env :=
  mkEnv
    (fun p => if String.eqb p "a.fits"
              then Ok (mkImage (Some "A") ∅ [[1; 2]; [3; 4]]%Q [])
              else Raise (LoadError p))
    (fun _ image => (Some image, Ok tt))
    (fun x y => if ((0 <=? x) && (x <? 2) && (0 <=? y) && (y <? 2))%Z
                then Ok (PyInt (x + 2 * y + 1))
                else Raise IndexError)
    (1 # 2)
    (fun _ _ _ => Raise WcsResolutionError)
    (fun _ _ => Ok tt)
    (fun _ => Ok tt)
    (fun tag => if String.eqb tag "obj1" then Ok tt else Raise (KeyError tag)).

End Viewer.

(** ** Symbolic execution of the driver *)

Lemma inline_calls_cons e t :
  inline_calls (e :: t)
  = match e with
    | EvInline c images flag => [(c, images, flag)]
    | _ => []
    end ++ inline_calls t.
Proof. destruct e; reflexivity. Qed.

Lemma create_calls_cons e t :
  create_calls (e :: t)
  = match e with
    | EvCreateBlank ra dec fov px rot cdbase => [(ra, dec, fov, px, rot, cdbase)]
    | _ => []
    end ++ create_calls t.
Proof. destruct e; reflexivity. Qed.

Lemma log_levels_cons e t :
  log_levels (e :: t)
  = match e with
    | EvLog _ lvl _ => [lvl]
    | _ => []
    end ++ log_levels t.
Proof. destruct e; reflexivity. Qed.

Lemma mosaic_params_cons e t :
  mosaic_params (e :: t)
  = match e with
    | EvLog _ _ (MsgMosaic rot cdelt1 cdelt2) => [(rot, cdelt1, cdelt2)]
    | _ => []
    end ++ mosaic_params t.
Proof. destruct e as [lg lvl []| | | | | | | |]; reflexivity. Qed.

Lemma mosaic_params_app t1 t2 :
  mosaic_params (t1 ++ t2) = mosaic_params t1 ++ mosaic_params t2.
Proof. apply omap_app. Qed.

Lemma inline_calls_app t1 t2 :
  inline_calls (t1 ++ t2) = inline_calls t1 ++ inline_calls t2.
Proof. apply omap_app. Qed.

Lemma create_calls_app t1 t2 :
  create_calls (t1 ++ t2) = create_calls t1 ++ create_calls t2.
Proof. apply omap_app. Qed.

Lemma log_levels_app t1 t2 :
  log_levels (t1 ++ t2) = log_levels t1 ++ log_levels t2.
Proof. apply omap_app. Qed.

(** Brings the projections of a list of events given by its elements to
    the list of the calls it holds. *)
Ltac calls :=
  repeat rewrite inline_calls_cons in *;
  repeat rewrite create_calls_cons in *;
  repeat rewrite log_levels_cons in *;
  repeat rewrite mosaic_params_cons in *;
  change (inline_calls []) with (@nil (nat * list Image * option bool)) in *;
  change (create_calls []) with (@nil (Q * Q * option Q * Q * Q * (Q * Q))) in *;
  change (log_levels []) with (@nil Level) in *;
  change (mosaic_params []) with (@nil (Q * Q * Q)) in *;
  cbn beta iota delta [app] in *.

Ltac unfold_driver :=
  unfold mosaic, main, mosaic_in, main_in, mosaic_first, resolve_item_0, item_0,
    get_keywords_list, get_keyword, call_load_data, call_io_fits_load_file,
    call_get_rotation_and_scale, call_create_blank_image, call_mosaic_inline,
    call_save_as_file, os_remove, ignore_OSError,
    logger_info, logger_debug, alloc, deref, store, global, emit, lift,
    bind, ret, raise in *.

Ltac norm :=
  cbn beta iota delta
    [fst snd events_of result_of state_of app heap fs length expand_of] in *.

Ltac innermost_in T :=
  match T with
  | context [match ?x with _ => _ end] =>
      lazymatch x with
      | context [match _ with _ => _ end] => fail
      | _ => destruct x eqn:?
      end
  end.

Ltac run_step :=
  match goal with
  | |- ?G => innermost_in G
  end; norm.

Ltac run_step_in H :=
  match type of H with
  | ?T => innermost_in T
  end; norm.

(** Unfolds one round of the loop and leaves the rest of it folded. *)
Ltac loop_round :=
  cbn beta iota delta [mosaic_loop]; fold mosaic_loop; unfold_driver; norm.

Ltac use_IH IH :=
  match goal with
  | H : mosaic_loop _ _ _ _ ?n ?r ?s = _ |- _ =>
      specialize (IH n s); rewrite H in IH; norm
  end.

(** ** The loop *)

Section LoopFacts.

Variable g : list string.
Variable W : Collaborators.
Variable logger : string.
Variable c : nat.

(** Every call the loop makes to [mosaic_inline] is on canvas [c], with
    one image and no [allow_expand]; a loop that ends normally has made
    one call per item. *)
Lemma loop_inline_calls items : forall count s,
  exists images,
    inline_calls (events_of (mosaic_loop g W logger c count items s))
      = map (fun image => (c, [image], None)) images
    /\ length images <= length items
    /\ (result_of (mosaic_loop g W logger c count items s) = Ok tt ->
        length images = length items).
Proof.
  induction items as [|item rest IH]; intros count s.
  - exists []. cbn. auto.
  - loop_round.
    repeat run_step.
    all: try (use_IH IH; destruct IH as (images & E & Hle & Hok)).
    all: calls.
    all: match goal with
         | E : _ = map _ ?images |- context [(c, [?i], None) :: _] =>
             exists (i :: images); rewrite ?E; cbn; repeat split;
             [lia | intros; f_equal; auto]
         | |- context [(c, [?i], None) :: _] =>
             exists [i]; cbn; repeat split; [lia | discriminate]
         | |- _ =>
             exists []; cbn; repeat split; [lia | discriminate]
         end.
Qed.

(** The loop allocates no canvas. *)
Lemma loop_create_calls items : forall count s,
  create_calls (events_of (mosaic_loop g W logger c count items s)) = [].
Proof.
  induction items as [|item rest IH]; intros count s.
  - reflexivity.
  - loop_round.
    repeat run_step.
    all: try use_IH IH.
    all: calls; auto.
Qed.

(** The loop does not report the canvas's rotation and scales. *)
Lemma loop_mosaic_params items : forall count s,
  mosaic_params (events_of (mosaic_loop g W logger c count items s)) = [].
Proof.
  induction items as [|item rest IH]; intros count s.
  - reflexivity.
  - loop_round.
    repeat run_step.
    all: try use_IH IH.
    all: calls; auto.
Qed.

(** The loop logs at the levels [info] and [debug] only. *)
Lemma loop_log_levels items : forall count s,
  Forall (fun lvl => lvl = Info \/ lvl = Debug)
    (log_levels (events_of (mosaic_loop g W logger c count items s))).
Proof.
  induction items as [|item rest IH]; intros count s.
  - constructor.
  - loop_round.
    repeat run_step.
    all: try use_IH IH.
    all: calls; repeat (apply List.Forall_cons; [auto |]); auto.
Qed.

(** The loop leaves the files alone, creates no object, and changes no
    object but the canvas. *)
Lemma loop_state items : forall count s,
  let s' := state_of (mosaic_loop g W logger c count items s) in
  fs s' = fs s
  /\ length (heap s') = length (heap s)
  /\ (forall loc, loc <> c -> heap s' !! loc = heap s !! loc).
Proof.
  induction items as [|item rest IH]; intros count s.
  - cbn. auto.
  - loop_round.
    repeat run_step.
    all: try use_IH IH.
    all: try (destruct IH as (Hfs & Hlen & Hother)).
    all: repeat split; auto.
    all: rewrite ?Hlen, ?length_insert; auto.
    all: intros loc Hloc; rewrite ?Hother by exact Hloc;
      rewrite ?list_lookup_insert_ne by congruence; reflexivity.
Qed.

(** The loop over a list in two parts is the loop over the first part
    followed, if that ends normally, by the loop over the second. *)
Lemma loop_app xs ys : forall count s,
  mosaic_loop g W logger c count (xs ++ ys) s
  = bind (mosaic_loop g W logger c count xs)
      (fun _ => mosaic_loop g W logger c (length xs + count) ys) s.
Proof.
  induction xs as [|x xs IH]; intros count s.
  - cbn [app length Nat.add mosaic_loop]. unfold bind, ret.
    destruct (mosaic_loop g W logger c count ys s) as [[r s1] t1]. reflexivity.
  - cbn [app length].
    replace (S (length xs) + count) with (length xs + S count) by lia.
    loop_round.
    repeat run_step; try reflexivity.
    all: match goal with
         | H : mosaic_loop _ _ _ _ _ (_ ++ _) _ = _ |- _ =>
             rewrite IH in H; unfold bind in H
         end.
    all: repeat match goal with
           | H : mosaic_loop _ _ _ _ ?n ?l ?s = _,
             H' : context [mosaic_loop _ _ _ _ ?n ?l ?s] |- _ =>
               rewrite H in H'; norm
           end.
    all: try congruence.
    all: repeat match goal with
           | H : (_, _) = (_, _) |- _ => injection H as; subst
           end.
    all: try reflexivity; try congruence.
Qed.

End LoopFacts.

(** ** The first item *)

Lemma lookup_new_object (h : list Image) (image : Image) :
  (h ++ [image]) !! length h = Some image.
Proof. apply list_lookup_middle. reflexivity. Qed.

Lemma update_new_object (h : list Image) (image image' : Image) :
  <[length h := image']> (h ++ [image]) = h ++ [image'].
Proof.
  rewrite insert_app_r_alt by lia.
  replace (length h - length h) with 0 by lia. reflexivity.
Qed.

Ltac heap_step :=
  rewrite ?lookup_new_object, ?update_new_object in *; norm.

Ltac run_first := unfold_driver; norm; repeat (heap_step; run_step); heap_step.

Section FirstFacts.

Variable g : list string.
Variable W : Collaborators.
Variable logger : string.

(** What a normal end of [mosaic_first] tells: how item 0 was resolved,
    what was extracted from its header, what the allocator was called
    with and returned, and that the result refers to a new object that
    holds the canvas after the placement of [image0]. *)
Lemma first_inversion itemlist fov s c s1 t1 :
  mosaic_first g W logger itemlist fov s = (Ok c, s1, t1) ->
  exists item0 rest image0 ra dec rot cdelt1 cdelt2 canvas0 canvas1,
    itemlist = item0 :: rest
    /\ image_0 W s item0 = Ok image0
    /\ img_header image0 !! "CRVAL1" = Some ra
    /\ img_header image0 !! "CRVAL2" = Some dec
    /\ wcs_get_rotation_and_scale W (img_header image0) = Ok (rot, cdelt1, cdelt2)
    /\ dp_create_blank_image W ra dec fov (math_fabs cdelt1) rot
         (np_sign cdelt1, np_sign cdelt2) = Ok canvas0
    /\ (exists rs, wcs_get_rotation_and_scale W (img_header canvas0) = Ok rs)
    /\ (exists tup, image_mosaic_inline W canvas0 [image0] (Some (expand_of fov))
                    = (canvas1, Ok tup))
    /\ c = length (heap s)
    /\ s1 = mkState (heap s ++ [canvas1]) (fs s)
    /\ create_calls t1
       = [(ra, dec, fov, math_fabs cdelt1, rot, (np_sign cdelt1, np_sign cdelt2))]
    /\ inline_calls t1 = [(c, [image0], Some (expand_of fov))].
Proof.
  revert c s1 t1. run_first.
  all: intros c' s1' t1' H; try discriminate H.
  all: injection H as <- <- <-.
  all: calls.
  all: repeat eexists; cbn [image_0]; eauto.
Qed.

(** What any run of [mosaic_first] has called: nothing, or the allocator
    once with the values taken from item 0, followed or not by the
    placement of item 0 on the new object. *)
Lemma first_calls itemlist fov s :
  let t := events_of (mosaic_first g W logger itemlist fov s) in
  (create_calls t = [] /\ inline_calls t = [])
  \/ exists item0 rest image0 ra dec rot cdelt1 cdelt2,
       itemlist = item0 :: rest
       /\ image_0 W s item0 = Ok image0
       /\ img_header image0 !! "CRVAL1" = Some ra
       /\ img_header image0 !! "CRVAL2" = Some dec
       /\ wcs_get_rotation_and_scale W (img_header image0) = Ok (rot, cdelt1, cdelt2)
       /\ create_calls t
          = [(ra, dec, fov, math_fabs cdelt1, rot, (np_sign cdelt1, np_sign cdelt2))]
       /\ (inline_calls t = []
           \/ inline_calls t = [(length (heap s), [image0], Some (expand_of fov))]).
Proof.
  run_first.
  all: calls.
  all: try (left; split; reflexivity).
  all: right; repeat eexists; cbn [image_0]; eauto.
Qed.

(** What any run of [mosaic_first] reports about the canvas: nothing,
    or what the extractor gives for the header of the canvas that the
    allocator returned for the values taken from item 0. *)
Lemma first_mosaic_params itemlist fov s :
  let t := events_of (mosaic_first g W logger itemlist fov s) in
  mosaic_params t = []
  \/ exists item0 rest image0 ra dec rot cdelt1 cdelt2 canvas0 rs,
       itemlist = item0 :: rest
       /\ image_0 W s item0 = Ok image0
       /\ img_header image0 !! "CRVAL1" = Some ra
       /\ img_header image0 !! "CRVAL2" = Some dec
       /\ wcs_get_rotation_and_scale W (img_header image0) = Ok (rot, cdelt1, cdelt2)
       /\ dp_create_blank_image W ra dec fov (math_fabs cdelt1) rot
            (np_sign cdelt1, np_sign cdelt2) = Ok canvas0
       /\ wcs_get_rotation_and_scale W (img_header canvas0) = Ok rs
       /\ mosaic_params t = [rs].
Proof.
  run_first.
  all: calls.
  all: try (left; reflexivity).
  all: right; repeat eexists; cbn [image_0]; eauto.
Qed.

(** [mosaic_first] logs at the levels [info] and [debug] only. *)
Lemma first_log_levels itemlist fov s :
  Forall (fun lvl => lvl = Info \/ lvl = Debug)
    (log_levels (events_of (mosaic_first g W logger itemlist fov s))).
Proof.
  run_first.
  all: calls; repeat (apply List.Forall_cons; [auto |]); auto.
Qed.

(** An exception in [mosaic_first] is the outcome of the whole run. *)
Lemma mosaic_in_first_raises itemlist fov s e s1 t1 :
  mosaic_first g W logger itemlist fov s = (Raise e, s1, t1) ->
  mosaic_in g W logger itemlist fov s = (Raise e, s1, t1).
Proof. intros H. unfold mosaic_in, bind. rewrite H. reflexivity. Qed.

(** After a normal end of [mosaic_first] the run is the loop over the
    other items and the final log record. *)
Lemma mosaic_in_first_ok itemlist fov s c s1 t1 :
  mosaic_first g W logger itemlist fov s = (Ok c, s1, t1) ->
  mosaic_in g W logger itemlist fov s
  = match mosaic_loop g W logger c 1 (tail itemlist) s1 with
    | (Ok _, s2, t2) => (Ok c, s2, t1 ++ t2 ++ [EvLog logger Info MsgDone])
    | (Raise e, s2, t2) => (Raise e, s2, t1 ++ t2)
    end.
Proof.
  intros H. unfold mosaic_in, bind. rewrite H.
  destruct (mosaic_loop g W logger c 1 (tail itemlist) s1) as [[[u|e] s2] t2];
    reflexivity.
Qed.

End FirstFacts.

(** ** The module's namespace *)

Lemma io_fits_unbound : ~ In "io_fits" module_globals.
Proof. cbn. intuition discriminate. Qed.

Lemma global_io_fits :
  global module_globals "io_fits" = raise (NameError "io_fits").
Proof. reflexivity. Qed.

Lemma global_AstroImage : global module_globals "AstroImage" = ret tt.
Proof. reflexivity. Qed.

Lemma global_loader : global module_globals "loader" = ret tt.
Proof. reflexivity. Qed.

Lemma global_wcs : global module_globals "wcs" = ret tt.
Proof. reflexivity. Qed.

Lemma global_math : global module_globals "math" = ret tt.
Proof. reflexivity. Qed.

Lemma global_np : global module_globals "np" = ret tt.
Proof. reflexivity. Qed.

Lemma global_dp : global module_globals "dp" = ret tt.
Proof. reflexivity. Qed.

Lemma global_log : global module_globals "log" = ret tt.
Proof. reflexivity. Qed.

Lemma global_mosaic : global module_globals "mosaic" = ret tt.
Proof. reflexivity. Qed.

Lemma global_os : global module_globals "os" = ret tt.
Proof. reflexivity. Qed.

(** Replaces the look-ups in the module's own namespace by their
    outcomes. *)
Ltac module_names :=
  rewrite ?global_AstroImage, ?global_loader, ?global_wcs, ?global_math,
    ?global_np, ?global_dp, ?global_log, ?global_mosaic, ?global_os,
    ?global_io_fits in *.

(** [mosaic_first] looks at the first item only. *)
Lemma first_ignores_rest g W logger item0 rest rest' fov s :
  mosaic_first g W logger (item0 :: rest) fov s
  = mosaic_first g W logger (item0 :: rest') fov s.
Proof. reflexivity. Qed.

(** In the module's namespace a round of the loop on a path logs the
    path and stops on the unbound name. *)
Lemma loop_path_unbound W logger c count p post s :
  mosaic_loop module_globals W logger c count (Path p :: post) s
  = (Raise (NameError "io_fits"), s, [EvLog logger Info (MsgReading p)]).
Proof. reflexivity. Qed.

(** In the module's namespace a loop that ends normally has met loaded
    images only. *)
Lemma loop_ok_loaded W logger c items : forall count s,
  result_of (mosaic_loop module_globals W logger c count items s) = Ok tt ->
  exists images, items = map Loaded images.
Proof.
  induction items as [|item rest IH]; intros count s.
  - exists []. reflexivity.
  - destruct item as [image|p].
    + cbn beta iota delta [mosaic_loop]; fold mosaic_loop. module_names.
      unfold_driver; norm.
      repeat run_step; try discriminate.
      use_IH IH. intros H. destruct (IH H) as [images ->].
      exists (image :: images). reflexivity.
    + rewrite loop_path_unbound. discriminate.
Qed.

(** In the module's namespace the loop over loaded images ends as
    [place_all] says, with the canvas object updated where it is. *)
Lemma loop_loaded W logger c images : forall count s canvas,
  heap s !! c = Some canvas ->
  let o := mosaic_loop module_globals W logger c count (map Loaded images) s in
  result_of o = snd (place_all W canvas images)
  /\ state_of o = mkState (<[c := fst (place_all W canvas images)]> (heap s)) (fs s).
Proof.
  induction images as [|image rest IH]; intros count s canvas Hc.
  - cbn. rewrite list_insert_id by exact Hc. destruct s; auto.
  - cbn beta iota delta [mosaic_loop map place_all]; fold mosaic_loop.
    fold (map Loaded rest). module_names.
    unfold_driver; norm. rewrite Hc; norm.
    destruct (image_mosaic_inline W canvas [image] None) as [canvas' [tup|e]]; norm.
    + assert (Hc' : heap (mkState (<[c := canvas']> (heap s)) (fs s)) !! c
                    = Some canvas').
      { cbn. apply list_lookup_insert_eq. eapply lookup_lt_Some; eauto. }
      specialize (IH (S count) _ canvas' Hc').
      destruct (mosaic_loop module_globals W logger c (S count) (map Loaded rest)
                  (mkState (<[c := canvas']> (heap s)) (fs s)))
        as [[r s2] t2].
      norm. cbn [heap fs] in IH. rewrite list_insert_insert_eq in IH. exact IH.
    + auto.
Qed.

(** ** The calls of a whole run *)

Lemma loop_flags (c : nat) (images : list Image) :
  map snd (map (fun image => (c, [image], @None bool)) images)
  = repeat None (length images).
Proof. induction images as [|i l IH]; cbn; [|rewrite IH]; reflexivity. Qed.


(** The calls to the compositor in any run of [mosaic_in]: none, or the
    placement of item 0 with the flag, followed by placements without a
    flag, one per item the loop got to; all on the object at the first
    free location. *)
Lemma mosaic_in_inline_calls g W logger itemlist fov s :
  let o := mosaic_in g W logger itemlist fov s in
  (inline_calls (events_of o) = [] /\ forall c, result_of o <> Ok c)
  \/ exists image0 images,
       inline_calls (events_of o)
       = (length (heap s), [image0], Some (expand_of fov))
         :: map (fun image => (length (heap s), [image], None)) images
       /\ length images <= length (tail itemlist)
       /\ (forall c, result_of o = Ok c -> length images = length (tail itemlist)).
Proof.
  cbn zeta.
  destruct (mosaic_first g W logger itemlist fov s) as [[[c|e] s1] t1] eqn:H1.
  - rewrite (mosaic_in_first_ok _ _ _ _ _ _ _ _ _ H1).
    destruct (first_inversion _ _ _ _ _ _ _ _ _ H1)
      as (item0 & rest & image0 & ra & dec & rot & c1 & c2 & canvas0 & canvas1
          & -> & _ & _ & _ & _ & _ & _ & _ & -> & _ & _ & Hinl).
    destruct (loop_inline_calls g W logger (length (heap s)) (tail (item0 :: rest)) 1 s1)
      as (images & E & Hle & Hok).
    right. exists image0, images.
    destruct (mosaic_loop g W logger (length (heap s)) 1 (tail (item0 :: rest)) s1)
      as [[[u|e] s2] t2]; norm.
    + rewrite !inline_calls_app, Hinl, E. calls. rewrite app_nil_r.
      repeat split; auto. intros _ _. apply Hok. destruct u; reflexivity.
    + rewrite !inline_calls_app, Hinl, E.
      repeat split; auto. discriminate.
  - rewrite (mosaic_in_first_raises _ _ _ _ _ _ _ _ _ H1). norm.
    pose proof (first_calls g W logger itemlist fov s) as Hc.
    rewrite H1 in Hc. norm.
    destruct Hc as [[_ Hinl] | (item0 & rest & image0 & ra & dec & rot & c1 & c2
                                 & -> & _ & _ & _ & _ & _ & [Hinl | Hinl])].
    + left. split; [exact Hinl | discriminate].
    + left. split; [exact Hinl | discriminate].
    + right. exists image0, []. rewrite Hinl. repeat split; cbn; [lia | discriminate].
Qed.

(** The calls to the allocator in any run of [mosaic_in]: none, or one,
    with the values taken from item 0. *)
Lemma mosaic_in_create_calls g W logger itemlist fov s :
  let o := mosaic_in g W logger itemlist fov s in
  (create_calls (events_of o) = [] /\ forall c, result_of o <> Ok c)
  \/ exists item0 rest image0 ra dec rot cdelt1 cdelt2,
       itemlist = item0 :: rest
       /\ image_0 W s item0 = Ok image0
       /\ img_header image0 !! "CRVAL1" = Some ra
       /\ img_header image0 !! "CRVAL2" = Some dec
       /\ wcs_get_rotation_and_scale W (img_header image0) = Ok (rot, cdelt1, cdelt2)
       /\ create_calls (events_of o)
          = [(ra, dec, fov, math_fabs cdelt1, rot, (np_sign cdelt1, np_sign cdelt2))].
Proof.
  cbn zeta.
  destruct (mosaic_first g W logger itemlist fov s) as [[[c|e] s1] t1] eqn:H1.
  - rewrite (mosaic_in_first_ok _ _ _ _ _ _ _ _ _ H1).
    destruct (first_inversion _ _ _ _ _ _ _ _ _ H1)
      as (item0 & rest & image0 & ra & dec & rot & c1 & c2 & canvas0 & canvas1
          & -> & Hi & Hra & Hdec & Hrs & _ & _ & _ & -> & _ & Hcr & _).
    pose proof (loop_create_calls g W logger (length (heap s)) (tail (item0 :: rest)) 1 s1)
      as Hl.
    right. exists item0, rest, image0, ra, dec, rot, c1, c2.
    destruct (mosaic_loop g W logger (length (heap s)) 1 (tail (item0 :: rest)) s1)
      as [[[u|e] s2] t2]; norm.
    + rewrite !create_calls_app, Hcr, Hl. calls. repeat split; auto.
    + rewrite !create_calls_app, Hcr, Hl. repeat split; auto.
  - rewrite (mosaic_in_first_raises _ _ _ _ _ _ _ _ _ H1). norm.
    pose proof (first_calls g W logger itemlist fov s) as Hc.
    rewrite H1 in Hc. norm.
    destruct Hc as [[Hcr _] | (item0 & rest & image0 & ra & dec & rot & c1 & c2
                                & -> & Hi & Hra & Hdec & Hrs & Hcr & _)].
    + left. split; [exact Hcr | discriminate].
    + right. exists item0, rest, image0, ra, dec, rot, c1, c2. repeat split; auto.
Qed.

(** ** Signs and magnitudes *)

Lemma np_sign_spec (x : Q) : sign_matches x (np_sign x).
Proof.
  destruct x as [n d]. unfold sign_matches, np_sign, Qlt, Qeq. cbn.
  destruct n; cbn; [right; left | right; right | left]; split;
    first [reflexivity | lia].
Qed.

Lemma sign_times_fabs (x : Q) : (np_sign x * math_fabs x)%Q = x.
Proof.
  destruct x as [n d]. unfold np_sign, math_fabs, Qmult. cbn.
  f_equal. destruct n; reflexivity.
Qed.

Lemma fabs_nonneg (x : Q) : (0 <= math_fabs x)%Q.
Proof. apply Qabs_nonneg. Qed.

Lemma lookup_old_object (h : list Image) (image : Image) (loc : nat) :
  loc <> length h -> (h ++ [image]) !! loc = h !! loc.
Proof.
  intros Hne. destruct (decide (loc < length h)) as [Hlt|Hge].
  - apply lookup_app_l. exact Hlt.
  - rewrite !lookup_ge_None_2; [reflexivity | lia | rewrite length_app; cbn; lia].
Qed.

(** ** The claims *)

(** C7: the expansion flag derived from [fov_deg] is passed to the
    placement of item 0 only; every later placement is a call of
    [mosaic_inline] without an [allow_expand] argument.  In any run, the
    [allow_expand] arguments of the calls, in order, are: none at all, or
    the flag followed by as many absent arguments as the loop made calls;
    in a run that returns, that is one per item after the first. *)
Theorem expand_flag_for_item_0_only W logger itemlist fov s :
  let o := mosaic W logger itemlist fov s in
  let flags := map snd (inline_calls (events_of o)) in
  (flags = []
   \/ exists n, n <= length (tail itemlist)
                /\ flags = Some (expand_of fov) :: repeat None n)
  /\ (forall c, result_of o = Ok c ->
      flags = Some (expand_of fov) :: repeat None (length (tail itemlist))).
Proof.
  cbn zeta. unfold mosaic.
  destruct (mosaic_in_inline_calls module_globals W logger itemlist fov s)
    as [[E Hno] | (image0 & images & E & Hle & Hok)]; rewrite E.
  - split; [left; reflexivity | intros c Hc; destruct (Hno c Hc)].
  - cbn [map snd]. rewrite loop_flags. split.
    + right. exists (length images). auto.
    + intros c Hc. rewrite (Hok c Hc). reflexivity.
Qed.

Lemma expand_flag_for_item_0_only_witness :
  map snd (inline_calls (events_of
    (mosaic Examples.W "mosaic"
       [Loaded Examples.image_a; Loaded Examples.image_b] None Examples.no_files)))
  = [Some true; None].
Proof.
  apply (proj2 (expand_flag_for_item_0_only Examples.W "mosaic"
                  [Loaded Examples.image_a; Loaded Examples.image_b] None
                  Examples.no_files) 0%nat).
  vm_compute. reflexivity.
Defined.

(** The heap after a run that returns: one object more, the canvas, at
    the location returned; the others as they were. *)
Lemma mosaic_in_heap g W logger itemlist fov s c :
  let o := mosaic_in g W logger itemlist fov s in
  result_of o = Ok c ->
  c = length (heap s)
  /\ length (heap (state_of o)) = S (length (heap s))
  /\ (forall loc, loc <> c -> heap (state_of o) !! loc = heap s !! loc)
  /\ fs (state_of o) = fs s.
Proof.
  cbn zeta.
  destruct (mosaic_first g W logger itemlist fov s) as [[[c'|e] s1] t1] eqn:H1.
  - rewrite (mosaic_in_first_ok _ _ _ _ _ _ _ _ _ H1).
    destruct (first_inversion _ _ _ _ _ _ _ _ _ H1)
      as (item0 & rest & image0 & ra & dec & rot & c1 & c2 & canvas0 & canvas1
          & -> & _ & _ & _ & _ & _ & _ & _ & -> & -> & _ & _).
    pose proof (loop_state g W logger (length (heap s)) (tail (item0 :: rest)) 1
                  (mkState (heap s ++ [canvas1]) (fs s))) as Hst.
    destruct (mosaic_loop g W logger (length (heap s)) 1 (tail (item0 :: rest))
                (mkState (heap s ++ [canvas1]) (fs s)))
      as [[[u|e] s2] t2]; norm; [|discriminate].
    cbn zeta in Hst. norm. destruct Hst as (Hfs & Hlen & Hother).
    intros [= <-]. repeat split; auto.
    + rewrite Hlen, length_app. cbn. lia.
    + intros loc Hloc. rewrite (Hother loc Hloc). apply lookup_old_object. exact Hloc.
  - rewrite (mosaic_in_first_raises _ _ _ _ _ _ _ _ _ H1). discriminate.
Qed.



(** C4: [fov_deg] decides the expansion flag.  In any run the allocator
    is called with [fov_deg] as it was given, [None] standing for a
    canvas without bounds, and a call of [mosaic_inline] that carries a
    flag carries [true] when [fov_deg] is [None] and [false] when a field
    of view was given; a run that returns has made that call, first.  The
    allocator of the specification answers [None] with a 1x1 placeholder. *)
Theorem fov_decides_expansion W logger itemlist fov s :
  let o := mosaic W logger itemlist fov s in
  let expand := match fov with None => true | Some _ => false end in
  Forall (fun call : Q * Q * option Q * Q * Q * (Q * Q) =>
            snd (fst (fst (fst call))) = fov)
    (create_calls (events_of o))
  /\ Forall (fun call : nat * list Image * option bool =>
               snd call = None \/ snd call = Some expand)
       (inline_calls (events_of o))
  /\ (forall c, result_of o = Ok c ->
      length (create_calls (events_of o)) = 1
      /\ exists image0,
           head (inline_calls (events_of o)) = Some (c, [image0], Some expand))
  /\ (forall ra dec px rot signs,
      exists canvas,
        SpecModel.allocate ra dec None px rot signs = Ok canvas
        /\ img_data canvas = [[SpecModel.fill]]).
Proof.
  cbn zeta. unfold mosaic. fold (expand_of fov).
  split; [|split; [|split]].
  - destruct (mosaic_in_create_calls module_globals W logger itemlist fov s)
      as [[-> _] | (item0 & rest & image0 & ra & dec & rot & c1 & c2
                    & _ & _ & _ & _ & _ & ->)].
    + constructor.
    + repeat constructor.
  - destruct (mosaic_in_inline_calls module_globals W logger itemlist fov s)
      as [[-> _] | (image0 & images & -> & _ & _)].
    + constructor.
    + constructor; [right; reflexivity|].
      induction images; cbn; constructor; auto.
  - intros c Hc.
    destruct (mosaic_in_heap module_globals W logger itemlist fov s c Hc)
      as (-> & _).
    split.
    + destruct (mosaic_in_create_calls module_globals W logger itemlist fov s)
        as [[_ Hno] | (item0 & rest & image0 & ra & dec & rot & c1 & c2
                       & _ & _ & _ & _ & _ & ->)].
      * destruct (Hno _ Hc).
      * reflexivity.
    + destruct (mosaic_in_inline_calls module_globals W logger itemlist fov s)
        as [[_ Hno] | (image0 & images & -> & _ & _)].
      * destruct (Hno _ Hc).
      * exists image0. reflexivity.
  - intros ra dec px rot signs. eexists. split; reflexivity.
Qed.

Lemma fov_decides_expansion_witness :
  head (inline_calls (events_of
         (mosaic Examples.W "mosaic" [Loaded Examples.image_a] None
            Examples.no_files)))
  = Some (0, [Examples.image_a], Some true)
  /\ head (inline_calls (events_of
            (mosaic Examples.W "mosaic" [Loaded Examples.image_a] (Some 2%Q)
               Examples.no_files)))
     = Some (0, [Examples.image_a], Some false).
Proof.
  split.
  - destruct (proj1 (proj2 (proj2
      (fov_decides_expansion Examples.W "mosaic" [Loaded Examples.image_a] None
         Examples.no_files))) 0) as (_ & image0 & H).
    + vm_compute. reflexivity.
    + rewrite H. vm_compute in H. injection H as <-. reflexivity.
  - destruct (proj1 (proj2 (proj2
      (fov_decides_expansion Examples.W "mosaic" [Loaded Examples.image_a]
         (Some 2%Q) Examples.no_files))) 0) as (_ & image0 & H).
    + vm_compute. reflexivity.
    + rewrite H. vm_compute in H. injection H as <-. reflexivity.
Defined.

(** C8: what the allocator is given.  A call of [create_blank_image] in
    a run of [mosaic] carries, as [cdbase], the signs of the two scales
    extracted from item 0's header, and, as the one pixel scale, the
    absolute value of the first-axis scale: the magnitude of the second
    scale is not passed on.  The sign and the magnitude give the
    first-axis scale back. *)
Theorem allocator_gets_signs_and_one_magnitude
    W logger itemlist fov s ra dec f px rot cdbase :
  In (ra, dec, f, px, rot, cdbase)
    (create_calls (events_of (mosaic W logger itemlist fov s))) ->
  exists item0 rest image0 cdelt1 cdelt2,
    itemlist = item0 :: rest
    /\ image_0 W s item0 = Ok image0
    /\ wcs_get_rotation_and_scale W (img_header image0) = Ok (rot, cdelt1, cdelt2)
    /\ cdbase = (np_sign cdelt1, np_sign cdelt2)
    /\ sign_matches cdelt1 (fst cdbase)
    /\ sign_matches cdelt2 (snd cdbase)
    /\ px = math_fabs cdelt1
    /\ (0 <= px)%Q
    /\ (fst cdbase * px)%Q = cdelt1.
Proof.
  unfold mosaic. intros Hin.
  destruct (mosaic_in_create_calls module_globals W logger itemlist fov s)
    as [[E _] | (item0 & rest & image0 & ra' & dec' & rot' & c1 & c2
                 & -> & Hi & _ & _ & Hrs & E)];
    rewrite E in Hin.
  - destruct Hin.
  - destruct Hin as [[= <- <- <- <- <- <-] | []].
    exists item0, rest, image0, c1, c2. cbn [fst snd].
    repeat split; auto using np_sign_spec, fabs_nonneg, sign_times_fabs.
Qed.

Lemma allocator_gets_signs_and_one_magnitude_witness :
  exists item0 rest image0 cdelt1 cdelt2,
    [Loaded Examples.image_tall] = item0 :: rest
    /\ image_0 Examples.W Examples.no_files item0 = Ok image0
    /\ wcs_get_rotation_and_scale Examples.W (img_header image0)
       = Ok (0%Q, cdelt1, cdelt2)
    /\ ((-1)%Q, 1%Q) = (np_sign cdelt1, np_sign cdelt2)
    /\ sign_matches cdelt1 (fst ((-1)%Q, 1%Q))
    /\ sign_matches cdelt2 (snd ((-1)%Q, 1%Q))
    /\ (1 # 2)%Q = math_fabs cdelt1
    /\ (0 <= 1 # 2)%Q
    /\ (fst ((-1)%Q, 1%Q) * (1 # 2))%Q = cdelt1.
Proof.
  apply (allocator_gets_signs_and_one_magnitude Examples.W "mosaic"
           [Loaded Examples.image_tall] None Examples.no_files
           10%Q 20%Q None (1 # 2)%Q 0%Q ((-1)%Q, 1%Q)).
  vm_compute. left. reflexivity.
Defined.

(** In the module's namespace [main] stops on the unbound name as soon as
    [mosaic] has returned and an output file is asked for. *)
Lemma main_unbound W options args s outfile c s' t :
  outfile_given options = Some outfile ->
  mosaic W "mosaic" args (opt_fov options) s = (Ok c, s', t) ->
  main W options args s = (Raise (NameError "io_fits"), s', t).
Proof.
  intros Hout Hm. unfold main, main_in. module_names.
  unfold mosaic in Hm. unfold bind at 1 2 3. unfold ret at 1 2.
  rewrite Hm, Hout. unfold bind, raise. rewrite !app_nil_r. reflexivity.
Qed.

(** C3: [io_fits] is not a name of the module, and the module uses it
    twice.  When the items before a path item after the first go through
    ([mosaic] returns on the list cut before it), [mosaic] on the whole
    list logs that it reads the path and raises the name error instead of
    the final log record, leaving the canvas as the items before left it.
    So [mosaic] returns on no list with a path after the first item.  And
    [main] raises the same error when [mosaic] has returned and an output
    file was asked for. *)
Theorem later_path_raises_name_error W logger item0 :
  ~ In "io_fits" module_globals
  /\ (forall pre p post fov s c s' t',
      mosaic W logger (item0 :: map Loaded pre) fov s = (Ok c, s', t') ->
      mosaic W logger (item0 :: map Loaded pre ++ Path p :: post) fov s
      = (Raise (NameError "io_fits"), s',
         removelast t' ++ [EvLog logger Info (MsgReading p)]))
  /\ (forall rest p fov s c,
      In (Path p) rest ->
      result_of (mosaic W logger (item0 :: rest) fov s) <> Ok c)
  /\ (forall options args s outfile c s' t,
      outfile_given options = Some outfile ->
      mosaic W "mosaic" args (opt_fov options) s = (Ok c, s', t) ->
      main W options args s = (Raise (NameError "io_fits"), s', t)).
Proof.
  split; [exact io_fits_unbound|]. split; [|split].
  - intros pre p post fov s c s' t' H. unfold mosaic in *.
    destruct (mosaic_first module_globals W logger (item0 :: map Loaded pre) fov s)
      as [[[c1|e] s1] t1] eqn:H1.
    + rewrite (mosaic_in_first_ok _ _ _ _ _ _ _ _ _ H1) in H.
      rewrite (first_ignores_rest _ _ _ _ _ (map Loaded pre ++ Path p :: post)) in H1.
      rewrite (mosaic_in_first_ok _ _ _ _ _ _ _ _ _ H1).
      cbn [tail] in *. rewrite loop_app. unfold bind.
      destruct (mosaic_loop module_globals W logger c1 1 (map Loaded pre) s1)
        as [[[u|e] s2] t2]; [|discriminate].
      injection H as <- <- <-.
      rewrite loop_path_unbound.
      rewrite (app_assoc t1 t2 [EvLog logger Info MsgDone]), removelast_last.
      rewrite <- app_assoc. reflexivity.
    + rewrite (mosaic_in_first_raises _ _ _ _ _ _ _ _ _ H1) in H. discriminate.
  - intros rest p fov s c Hin Hc. unfold mosaic in Hc.
    destruct (mosaic_first module_globals W logger (item0 :: rest) fov s)
      as [[[c1|e] s1] t1] eqn:H1.
    + rewrite (mosaic_in_first_ok _ _ _ _ _ _ _ _ _ H1) in Hc. cbn [tail] in Hc.
      pose proof (loop_ok_loaded W logger c1 rest 1 s1) as Hl.
      destruct (mosaic_loop module_globals W logger c1 1 rest s1)
        as [[[u|e] s2] t2]; [|discriminate].
      destruct Hl as [images ->]; [destruct u; reflexivity|].
      apply in_map_iff in Hin. destruct Hin as (image & Habs & _). discriminate.
    + rewrite (mosaic_in_first_raises _ _ _ _ _ _ _ _ _ H1) in Hc. discriminate.
  - intros options args s outfile c s' t. apply main_unbound.
Qed.

Lemma later_path_raises_name_error_witness :
  result_of (mosaic Examples.W "mosaic"
               [Path "a.fits"; Loaded Examples.image_b; Path "b.fits"] None
               Examples.two_files)
  = Raise (NameError "io_fits")
  /\ result_of (main Examples.W (mkOptions None (Some "out.fits"))
                  [Path "a.fits"] Examples.two_files)
     = Raise (NameError "io_fits").
Proof.
  destruct (mosaic Examples.W "mosaic"
              (Path "a.fits" :: map Loaded [Examples.image_b]) None
              Examples.two_files) as [[r s'] t'] eqn:H.
  assert (Hr : r = Ok 0) by (apply (f_equal result_of) in H; vm_compute in H;
                             symmetry; exact H).
  subst r. split.
  - pose proof (proj1 (proj2 (later_path_raises_name_error Examples.W "mosaic"
                                (Path "a.fits")))
                  [Examples.image_b] "b.fits" [] None Examples.two_files 0 s' t' H)
      as E.
    cbn [map app] in E. rewrite E. reflexivity.
  - destruct (mosaic Examples.W "mosaic" [Path "a.fits"]
                (opt_fov (mkOptions None (Some "out.fits"))) Examples.two_files)
      as [[r1 s1] t1] eqn:H1.
    assert (Hr : r1 = Ok 0) by (apply (f_equal result_of) in H1; vm_compute in H1;
                                symmetry; exact H1).
    subst r1.
    rewrite (proj2 (proj2 (proj2 (later_path_raises_name_error Examples.W "mosaic"
                             (Path "a.fits"))))
               (mkOptions None (Some "out.fits")) [Path "a.fits"]
               Examples.two_files "out.fits" 0 s1 t1 eq_refl H1).
    reflexivity.
Defined.

(** ** What happens to failures *)

(** In the module's namespace [mosaic_first] ends normally when item 0
    is resolved, holds the two keywords, its rotation and scale are
    extracted, the canvas is allocated, its rotation and scale are
    extracted and item 0 is placed on it. *)
Lemma first_succeeds W logger item0 rest fov s
    image0 ra dec rot cdelt1 cdelt2 canvas0 rs canvas1 tup :
  image_0 W s item0 = Ok image0 ->
  img_header image0 !! "CRVAL1" = Some ra ->
  img_header image0 !! "CRVAL2" = Some dec ->
  wcs_get_rotation_and_scale W (img_header image0) = Ok (rot, cdelt1, cdelt2) ->
  dp_create_blank_image W ra dec fov (math_fabs cdelt1) rot
    (np_sign cdelt1, np_sign cdelt2) = Ok canvas0 ->
  wcs_get_rotation_and_scale W (img_header canvas0) = Ok rs ->
  image_mosaic_inline W canvas0 [image0] (Some (expand_of fov)) = (canvas1, Ok tup) ->
  let o := mosaic_first module_globals W logger (item0 :: rest) fov s in
  result_of o = Ok (length (heap s))
  /\ state_of o = mkState (heap s ++ [canvas1]) (fs s).
Proof.
  intros Hi Hra Hdec Hrs Hcr Hrs' Hinl. cbn zeta. unfold expand_of in Hinl.
  unfold mosaic_first, resolve_item_0, call_load_data,
    call_get_rotation_and_scale, call_create_blank_image.
  module_names.
  destruct item0 as [image|p]; cbn [image_0] in Hi.
  - injection Hi as ->.
    unfold_driver; norm. rewrite Hra, Hdec, Hrs; norm. rewrite Hcr; norm.
    heap_step. rewrite Hrs'. destruct rs as [[rot' c1'] c2']; norm.
    heap_step. rewrite Hinl; norm. heap_step. auto.
  - unfold_driver; norm. rewrite Hi; norm.
    rewrite Hra, Hdec, Hrs; norm. rewrite Hcr; norm.
    heap_step. rewrite Hrs'. destruct rs as [[rot' c1'] c2']; norm.
    heap_step. rewrite Hinl; norm. heap_step. auto.
Qed.

(** After item 0, loaded images are placed one after the other, up to
    the first placement that fails. *)
Lemma loaded_items_run
    W logger item0 images fov s
    image0 ra dec rot cdelt1 cdelt2 canvas0 rs canvas1 tup :
  image_0 W s item0 = Ok image0 ->
  img_header image0 !! "CRVAL1" = Some ra ->
  img_header image0 !! "CRVAL2" = Some dec ->
  wcs_get_rotation_and_scale W (img_header image0) = Ok (rot, cdelt1, cdelt2) ->
  dp_create_blank_image W ra dec fov (math_fabs cdelt1) rot
    (np_sign cdelt1, np_sign cdelt2) = Ok canvas0 ->
  wcs_get_rotation_and_scale W (img_header canvas0) = Ok rs ->
  image_mosaic_inline W canvas0 [image0] (Some (expand_of fov)) = (canvas1, Ok tup) ->
  let o := mosaic W logger (item0 :: map Loaded images) fov s in
  result_of o
  = match snd (place_all W canvas1 images) with
    | Ok _ => Ok (length (heap s))
    | Raise e => Raise e
    end
  /\ heap (state_of o) = heap s ++ [fst (place_all W canvas1 images)]
  /\ Forall (fun lvl => lvl = Info \/ lvl = Debug) (log_levels (events_of o)).
Proof.
  intros Hi Hra Hdec Hrs Hcr Hrs' Hinl. cbn zeta. unfold mosaic.
  pose proof (first_succeeds W logger item0 (map Loaded images) fov s _ _ _ _ _ _
                _ _ _ _ Hi Hra Hdec Hrs Hcr Hrs' Hinl) as Hf.
  pose proof (first_log_levels module_globals W logger
                (item0 :: map Loaded images) fov s) as Hlv1.
  cbn zeta in Hf.
  destruct (mosaic_first module_globals W logger (item0 :: map Loaded images) fov s)
    as [[r s1] t1] eqn:H1.
  norm. destruct Hf as [-> ->].
  rewrite (mosaic_in_first_ok _ _ _ _ _ _ _ _ _ H1). cbn [tail].
  pose proof (loop_loaded W logger (length (heap s)) images 1
                (mkState (heap s ++ [canvas1]) (fs s)) canvas1
                (lookup_new_object (heap s) canvas1)) as Hl.
  pose proof (loop_log_levels module_globals W logger (length (heap s))
                (map Loaded images) 1 (mkState (heap s ++ [canvas1]) (fs s)))
    as Hlv2.
  cbn zeta in Hl.
  destruct (mosaic_loop module_globals W logger (length (heap s)) 1
              (map Loaded images) (mkState (heap s ++ [canvas1]) (fs s)))
    as [[r2 s2] t2].
  norm. destruct Hl as [-> ->]. rewrite update_new_object.
  destruct (snd (place_all W canvas1 images)) as [u|e]; norm.
  - repeat split; auto.
    rewrite !log_levels_app. apply Forall_app. split; [exact Hlv1|].
    apply Forall_app. split; [exact Hlv2|]. repeat constructor.
  - repeat split; auto.
    rewrite !log_levels_app. apply Forall_app. split; [exact Hlv1 | exact Hlv2].
Qed.

(** In the module's namespace a failure to resolve item 0 or to extract
    its rotation and scale is the outcome of the run. *)
Lemma item_0_failure W logger item0 rest fov s :
  (forall e,
     image_0 W s item0 = Raise e ->
     result_of (mosaic W logger (item0 :: rest) fov s) = Raise e)
  /\ (forall image0 ra dec e,
      image_0 W s item0 = Ok image0 ->
      img_header image0 !! "CRVAL1" = Some ra ->
      img_header image0 !! "CRVAL2" = Some dec ->
      wcs_get_rotation_and_scale W (img_header image0) = Raise e ->
      result_of (mosaic W logger (item0 :: rest) fov s) = Raise e).
Proof.
  unfold mosaic, mosaic_in, mosaic_first, resolve_item_0, call_load_data,
    call_get_rotation_and_scale.
  module_names. split.
  - intros e Hi. destruct item0 as [image|p]; cbn [image_0] in Hi; [discriminate|].
    unfold_driver; norm. rewrite Hi. reflexivity.
  - intros image0 ra dec e Hi Hra Hdec Hrs.
    destruct item0 as [image|p]; cbn [image_0] in Hi.
    + injection Hi as ->. unfold_driver; norm. rewrite Hra, Hdec, Hrs. reflexivity.
    + unfold_driver; norm. rewrite Hi; norm. rewrite Hra, Hdec, Hrs. reflexivity.
Qed.

(** C1, as the code has it: [mosaic] has no exception handler.  When
    item 0 is resolved, its rotation and scale are extracted, the canvas
    is allocated and item 0 is placed, then on every list whose later
    items are loaded images [mosaic] places them one after the other on
    that canvas: it returns the canvas when every placement goes
    through, and otherwise raises the exception of the first placement
    that fails, with the canvas as that placement left it; nothing is
    logged above the level [info].  A failure to resolve item 0 or to
    extract its rotation and scale is raised to the caller. *)
Theorem later_items_placed_or_run_ends W logger item0 fov s :
  (forall images image0 ra dec rot cdelt1 cdelt2 canvas0 rs canvas1 tup,
     image_0 W s item0 = Ok image0 ->
     img_header image0 !! "CRVAL1" = Some ra ->
     img_header image0 !! "CRVAL2" = Some dec ->
     wcs_get_rotation_and_scale W (img_header image0) = Ok (rot, cdelt1, cdelt2) ->
     dp_create_blank_image W ra dec fov (math_fabs cdelt1) rot
       (np_sign cdelt1, np_sign cdelt2) = Ok canvas0 ->
     wcs_get_rotation_and_scale W (img_header canvas0) = Ok rs ->
     image_mosaic_inline W canvas0 [image0] (Some (expand_of fov))
     = (canvas1, Ok tup) ->
     let o := mosaic W logger (item0 :: map Loaded images) fov s in
     result_of o
     = match snd (place_all W canvas1 images) with
       | Ok _ => Ok (length (heap s))
       | Raise e => Raise e
       end
     /\ heap (state_of o) = heap s ++ [fst (place_all W canvas1 images)]
     /\ Forall (fun lvl => lvl = Info \/ lvl = Debug) (log_levels (events_of o)))
  /\ (forall rest e,
      image_0 W s item0 = Raise e ->
      result_of (mosaic W logger (item0 :: rest) fov s) = Raise e)
  /\ (forall rest image0 ra dec e,
      image_0 W s item0 = Ok image0 ->
      img_header image0 !! "CRVAL1" = Some ra ->
      img_header image0 !! "CRVAL2" = Some dec ->
      wcs_get_rotation_and_scale W (img_header image0) = Raise e ->
      result_of (mosaic W logger (item0 :: rest) fov s) = Raise e).
Proof.
  split; [|split].
  - intros images image0 ra dec rot cdelt1 cdelt2 canvas0 rs canvas1 tup.
    apply loaded_items_run.
  - intros rest. apply (proj1 (item_0_failure W logger item0 rest fov s)).
  - intros rest. apply (proj2 (item_0_failure W logger item0 rest fov s)).
Qed.

Lemma later_items_placed_or_run_ends_witness :
  result_of (mosaic Examples.W "mosaic"
               (Loaded Examples.image_a :: map Loaded [Examples.image_b]) None
               Examples.no_files)
  = Ok 0.
Proof.
  edestruct (proj1 (later_items_placed_or_run_ends Examples.W "mosaic"
                      (Loaded Examples.image_a) None Examples.no_files)
               [Examples.image_b])
    as (Hres & _).
  - reflexivity.
  - reflexivity.
  - reflexivity.
  - reflexivity.
  - reflexivity.
  - reflexivity.
  - reflexivity.
  - rewrite Hres. vm_compute. reflexivity.
Defined.

(** C1 fails on the code.  Item 0 is a loaded image that [mosaic]
    accepts on its own; the second of three items is a path that holds no
    file.  [mosaic] does not return a canvas: it raises the name error on
    [io_fits], and, were [io_fits] bound, the loader's error, in both
    cases uncaught; the third item is never placed and nothing is logged
    at the level [warning]. *)
Lemma load_failure_ends_the_run :
  let items := [Loaded Examples.image_a; Path "missing.fits";
                Loaded Examples.image_b] in
  let o := mosaic Examples.W "mosaic" items None Examples.no_files in
  let o' := mosaic_in ("io_fits" :: module_globals) Examples.W "mosaic" items
              None Examples.no_files in
  result_of (mosaic Examples.W "mosaic" [Loaded Examples.image_a] None
               Examples.no_files) = Ok 0
  /\ io_fits_load_file Examples.W (fs Examples.no_files) "missing.fits"
     = Raise (LoadError "missing.fits")
  /\ result_of o = Raise (NameError "io_fits")
  /\ result_of o' = Raise (LoadError "missing.fits")
  /\ length (inline_calls (events_of o)) = 1
  /\ length (inline_calls (events_of o')) = 1
  /\ log_levels (events_of o) = [Debug; Debug; Debug; Debug; Info]
  /\ log_levels (events_of o') = [Debug; Debug; Debug; Debug; Info].
Proof. vm_compute. repeat split; reflexivity. Qed.

(** C2, at an input where the code misses it: item 0 and item 1 are
    paths to two files that both load.  Item 0 is loaded through
    [loader.load_data] and placed; for item 1 the code logs that it reads
    the file and stops on the unbound name [io_fits]: the file is not
    loaded and the image is not placed. *)
Lemma second_path_is_not_resolved :
  let o := mosaic Examples.W "mosaic" [Path "a.fits"; Path "b.fits"] None
             Examples.two_files in
  loader_load_data Examples.W (fs Examples.two_files) "b.fits"
  = Ok Examples.image_b
  /\ result_of o = Raise (NameError "io_fits")
  /\ inline_calls (events_of o) = [(0, [Examples.image_a], Some true)]
  /\ List.filter (fun e => match e with
                      | EvLoadData _ | EvIoFitsLoadFile _
                      | EvLog _ Info (MsgReading _) => true
                      | _ => false
                      end) (events_of o)
     = [EvLog "mosaic" Info (MsgReading "a.fits"); EvLoadData "a.fits";
        EvLog "mosaic" Info (MsgReading "b.fits")].
Proof. vm_compute. repeat split; reflexivity. Qed.

(** C10, at an input where the code misses it: one input file that
    loads, and an output path.  [mosaic] returns, then [main] stops on
    the unbound name [io_fits] before it removes or writes anything: the
    files are as they were and the output file does not exist.  The
    process ends with status 1. *)
Lemma output_is_not_written :
  let options := mkOptions None (Some "out.fits") in
  let o := main Examples.W options [Path "a.fits"] Examples.two_files in
  result_of (mosaic Examples.W "mosaic" [Path "a.fits"] None Examples.two_files)
  = Ok 0
  /\ result_of o = Raise (NameError "io_fits")
  /\ fs (state_of o) = fs Examples.two_files
  /\ fs (state_of o) !! "out.fits" = None
  /\ List.filter (fun e => match e with
                      | EvIoFitsUse _ | EvRemove _ | EvSaveAsFile _ _ => true
                      | _ => false
                      end) (events_of o) = []
  /\ fst (fst (script Examples.W options ["a.fits"] Examples.two_files)) = 1%Z.
Proof. vm_compute. repeat split; reflexivity. Qed.

(** ** The collaborators of the specification *)

(** What any run of [mosaic_in] reports about the canvas. *)
Lemma mosaic_in_mosaic_params g W logger itemlist fov s :
  let t := events_of (mosaic_in g W logger itemlist fov s) in
  mosaic_params t = []
  \/ exists item0 rest image0 ra dec rot cdelt1 cdelt2 canvas0 rs,
       itemlist = item0 :: rest
       /\ image_0 W s item0 = Ok image0
       /\ img_header image0 !! "CRVAL1" = Some ra
       /\ img_header image0 !! "CRVAL2" = Some dec
       /\ wcs_get_rotation_and_scale W (img_header image0) = Ok (rot, cdelt1, cdelt2)
       /\ dp_create_blank_image W ra dec fov (math_fabs cdelt1) rot
            (np_sign cdelt1, np_sign cdelt2) = Ok canvas0
       /\ wcs_get_rotation_and_scale W (img_header canvas0) = Ok rs
       /\ mosaic_params t = [rs].
Proof.
  cbn zeta.
  pose proof (first_mosaic_params g W logger itemlist fov s) as Hf. cbn zeta in Hf.
  destruct (mosaic_first g W logger itemlist fov s) as [[[c|e] s1] t1] eqn:H1.
  - rewrite (mosaic_in_first_ok _ _ _ _ _ _ _ _ _ H1).
    pose proof (loop_mosaic_params g W logger c (tail itemlist) 1 s1) as Hl.
    destruct (mosaic_loop g W logger c 1 (tail itemlist) s1) as [[[u|e] s2] t2];
      norm; rewrite !mosaic_params_app, Hl; calls; rewrite ?app_nil_r; exact Hf.
  - rewrite (mosaic_in_first_raises _ _ _ _ _ _ _ _ _ H1). exact Hf.
Qed.

Lemma canvas_header_extract ra dec side px rot signs :
  SpecModel.extract (SpecModel.canvas_header ra dec side px rot signs)
  = Ok (rot, (fst signs * px)%Q, (snd signs * px)%Q).
Proof.
  unfold SpecModel.extract, SpecModel.canvas_header.
  by simplify_map_eq.
Qed.

(** The extractor of the specification gives, for the header of a canvas
    that its allocator returns, the rotation and the signed scales the
    canvas was built with. *)
Lemma allocate_round_trip ra dec fov px rot signs canvas :
  SpecModel.allocate ra dec fov px rot signs = Ok canvas ->
  SpecModel.extract (img_header canvas)
  = Ok (rot, (fst signs * px)%Q, (snd signs * px)%Q).
Proof.
  unfold SpecModel.allocate. intros H.
  destruct fov as [fov|].
  - destruct (Qle_bool fov 0); [discriminate|].
    destruct (Qfloor (fov / px) <? 1)%Z; [discriminate|].
    injection H as <-. apply canvas_header_extract.
  - injection H as <-. apply canvas_header_extract.
Qed.

Lemma second_scale_restored (cdelt1 cdelt2 : Q) :
  (np_sign cdelt2 * math_fabs cdelt1 == cdelt2)%Q
  <-> (cdelt2 == 0)%Q \/ (Qabs cdelt2 == Qabs cdelt1)%Q.
Proof.
  destruct cdelt1 as [a b], cdelt2 as [c d].
  unfold np_sign, math_fabs, Qeq, Qabs, Qmult. cbn.
  destruct c as [|c|c]; cbn; lia.
Qed.

(** C6, as the code has it: the round trip through the allocator.  With
    the extractor and the allocator of the specification: when rotation
    and scales are extracted from a header and a canvas is allocated from
    them the way [mosaic] does (lines 50-60: one pixel scale, the
    magnitude of the first-axis scale, and the two signs), extraction
    from the canvas's header gives the same rotation and the same
    first-axis scale; the second-axis scale comes back as the sign of the
    extracted one times the magnitude of the first, which is the
    extracted one exactly when that is zero or the two magnitudes agree:
    only then does the header round-trip.  What a run of [mosaic] reports
    for the canvas (line 63) is this triple. *)
Theorem canvas_round_trip :
  (forall hdr rot cdelt1 cdelt2 ra dec fov canvas,
     SpecModel.extract hdr = Ok (rot, cdelt1, cdelt2) ->
     SpecModel.allocate ra dec fov (math_fabs cdelt1) rot
       (np_sign cdelt1, np_sign cdelt2) = Ok canvas ->
     exists cdelt2',
       SpecModel.extract (img_header canvas) = Ok (rot, cdelt1, cdelt2')
       /\ cdelt2' = (np_sign cdelt2 * math_fabs cdelt1)%Q
       /\ ((cdelt2' == cdelt2)%Q
           <-> (cdelt2 == 0)%Q \/ (Qabs cdelt2 == Qabs cdelt1)%Q)
       /\ (SpecModel.extract (img_header canvas) = SpecModel.extract hdr ->
           (cdelt2 == 0)%Q \/ (Qabs cdelt2 == Qabs cdelt1)%Q))
  /\ (forall W logger itemlist fov s rot' cdelt1' cdelt2',
      wcs_get_rotation_and_scale W = SpecModel.extract ->
      dp_create_blank_image W = SpecModel.allocate ->
      In (rot', cdelt1', cdelt2')
        (mosaic_params (events_of (mosaic W logger itemlist fov s))) ->
      exists item0 rest image0 cdelt2,
        itemlist = item0 :: rest
        /\ image_0 W s item0 = Ok image0
        /\ SpecModel.extract (img_header image0) = Ok (rot', cdelt1', cdelt2)
        /\ cdelt2' = (np_sign cdelt2 * math_fabs cdelt1')%Q).
Proof.
  split.
  - intros hdr rot c1 c2 ra dec fov canvas Hx Ha.
    exists (np_sign c2 * math_fabs c1)%Q.
    rewrite (allocate_round_trip _ _ _ _ _ _ _ Ha). cbn [fst snd].
    rewrite sign_times_fabs.
    split; [reflexivity|]. split; [reflexivity|].
    split; [apply second_scale_restored|].
    rewrite Hx. intros [= H]. apply second_scale_restored.
    rewrite H. reflexivity.
  - intros W logger itemlist fov s rot' c1' c2' Hx Ha Hin. unfold mosaic in Hin.
    destruct (mosaic_in_mosaic_params module_globals W logger itemlist fov s)
      as [E | (item0 & rest & image0 & ra & dec & rot & c1 & c2 & canvas0 & rs
               & -> & Hi & _ & _ & Hrs & Hcr & Hrs' & E)];
      rewrite E in Hin.
    + destruct Hin.
    + destruct Hin as [-> | []].
      rewrite Hx in Hrs, Hrs'. rewrite Ha in Hcr.
      rewrite (allocate_round_trip _ _ _ _ _ _ _ Hcr) in Hrs'. cbn [fst snd] in Hrs'.
      injection Hrs' as <- <- <-.
      exists item0, rest, image0, c2.
      rewrite sign_times_fabs. auto.
Qed.

Lemma canvas_round_trip_witness :
  SpecModel.extract
    (SpecModel.canvas_header 10 20 4 (1 # 2) 0 ((-1)%Q, 1%Q))
  = Ok (0%Q, (-1 # 2)%Q, (1 # 2)%Q)
  /\ In (0%Q, (-1 # 2)%Q, (1 # 2)%Q)
       (mosaic_params (events_of
          (mosaic Examples.W "mosaic" [Loaded Examples.image_a] (Some 2%Q)
             Examples.no_files))).
Proof.
  assert (Hin : In (0%Q, (-1 # 2)%Q, (1 # 2)%Q)
                  (mosaic_params (events_of
                     (mosaic Examples.W "mosaic" [Loaded Examples.image_a]
                        (Some 2%Q) Examples.no_files))))
    by (vm_compute; left; reflexivity).
  split; [|exact Hin].
  destruct (proj1 canvas_round_trip (img_header Examples.image_a)
              0%Q (-1 # 2)%Q (1 # 2)%Q 10%Q 20%Q (Some 2%Q)
              (mkImage None
                 (SpecModel.canvas_header 10 20 4 (1 # 2) 0 ((-1)%Q, 1%Q))
                 (SpecModel.blank_grid 4 4) []))
    as (c2' & Hx & -> & _).
  - vm_compute. reflexivity.
  - vm_compute. reflexivity.
  - destruct (proj2 canvas_round_trip Examples.W "mosaic"
                [Loaded Examples.image_a] (Some 2%Q) Examples.no_files
                0%Q (-1 # 2)%Q (1 # 2)%Q eq_refl eq_refl Hin)
      as (item0 & rest & image0 & c2 & _).
    exact Hx.
Defined.

(** C6 fails on the code.  The header of [image_tall] is valid: its
    rotation is 0 and its scales are -1/2 and 1.  The canvas that
    [mosaic] allocates from them has the scales -1/2 and 1/2: the
    second-axis scale does not come back, by 1/2, in the allocator's own
    round trip and in what a run of [mosaic] on that image reports. *)
Lemma second_axis_scale_is_not_restored :
  exists canvas,
    SpecModel.extract (img_header Examples.image_tall)
    = Ok (0%Q, (-1 # 2)%Q, 1%Q)
    /\ SpecModel.allocate 10 20 (Some 2%Q) (math_fabs (-1 # 2)) 0
         (np_sign (-1 # 2), np_sign 1) = Ok canvas
    /\ SpecModel.extract (img_header canvas) = Ok (0%Q, (-1 # 2)%Q, (1 # 2)%Q)
    /\ SpecModel.extract (img_header canvas)
       <> SpecModel.extract (img_header Examples.image_tall)
    /\ ~ ((1 # 2) == 1)%Q
    /\ mosaic_params (events_of
         (mosaic Examples.W "mosaic" [Loaded Examples.image_tall] (Some 2%Q)
            Examples.no_files))
       = [(0%Q, (-1 # 2)%Q, (1 # 2)%Q)].
Proof.
  eexists. split; [vm_compute; reflexivity|].
  split; [vm_compute; reflexivity|].
  split; [vm_compute; reflexivity|].
  split; [vm_compute; discriminate|].
  split; [vm_compute; discriminate|].
  vm_compute. reflexivity.
Qed.

Section InlineFacts.

Variable footprint : gmap string Q -> Image -> Result (Z * Z * list (list Q)).
Variable default_expand : bool.

(** An image that does not fit, with expansion off: the step signals
    [OutOfBoundsError] and hands the canvas back as it got it. *)
Lemma inline_one_out_of_bounds canvas image x0 y0 block :
  footprint (img_header canvas) image = Ok (x0, y0, block) ->
  SpecModel.fits canvas x0 y0 block = false ->
  SpecModel.inline_one footprint canvas image false
  = (canvas, Raise (OutOfBoundsError (SpecModel.source_name image))).
Proof.
  intros Hfp Hfits. unfold SpecModel.inline_one. rewrite Hfp, Hfits. reflexivity.
Qed.

(** The images before the one that fails have been placed; the failing
    one changes nothing and ends the call. *)
Lemma inline_stops_at_out_of_bounds pre : forall canvas0 canvas recs image post flag
    x0 y0 block,
  SpecModel.expansion default_expand flag = false ->
  SpecModel.inline footprint default_expand canvas0 pre flag = (canvas, Ok recs) ->
  footprint (img_header canvas) image = Ok (x0, y0, block) ->
  SpecModel.fits canvas x0 y0 block = false ->
  SpecModel.inline footprint default_expand canvas0 (pre ++ image :: post) flag
  = (canvas, Raise (OutOfBoundsError (SpecModel.source_name image))).
Proof.
  induction pre as [|i pre IH];
    intros canvas0 canvas recs image post flag x0 y0 block Hflag Hpre Hfp Hfits.
  - cbn in Hpre. injection Hpre as -> <-. cbn [app SpecModel.inline].
    rewrite Hflag, (inline_one_out_of_bounds _ _ _ _ _ Hfp Hfits). reflexivity.
  - cbn [app SpecModel.inline] in *.
    destruct (SpecModel.inline_one footprint canvas0 i
                (SpecModel.expansion default_expand flag))
      as [canvas1 [rec|e]]; [|discriminate].
    destruct (SpecModel.inline footprint default_expand canvas1 pre flag)
      as [canvas2 [recs'|e]] eqn:Hrest; [|discriminate].
    injection Hpre as -> <-.
    rewrite (IH _ _ _ image post flag _ _ _ Hflag Hrest Hfp Hfits). reflexivity.
Qed.

End InlineFacts.

(** C5: an image that does not fit, with expansion off.  With the
    compositor of the specification: when [allow_expand] is false and
    the image's extent on the canvas does not lie within the canvas,
    [inline] signals [OutOfBoundsError] for that image and the canvas,
    pixel grid, header and placement log, is what it was when the image
    was reached; for a call with that one image, as [mosaic] makes them,
    what it was before the call.  Seen from the driver: the call raises,
    and the heap, with the canvas object in it, and the files are
    unchanged. *)
Theorem out_of_bounds_leaves_canvas footprint default_expand canvas image x0 y0 block :
  footprint (img_header canvas) image = Ok (x0, y0, block) ->
  SpecModel.fits canvas x0 y0 block = false ->
  (forall flag,
     SpecModel.expansion default_expand flag = false ->
     SpecModel.inline footprint default_expand canvas [image] flag
     = (canvas, Raise (OutOfBoundsError (SpecModel.source_name image))))
  /\ (forall flag canvas0 pre recs post,
      SpecModel.expansion default_expand flag = false ->
      SpecModel.inline footprint default_expand canvas0 pre flag = (canvas, Ok recs) ->
      SpecModel.inline footprint default_expand canvas0 (pre ++ image :: post) flag
      = (canvas, Raise (OutOfBoundsError (SpecModel.source_name image))))
  /\ (forall W c s,
      image_mosaic_inline W = SpecModel.inline footprint default_expand ->
      heap s !! c = Some canvas ->
      call_mosaic_inline W c [image] (Some false) s
      = (Raise (OutOfBoundsError (SpecModel.source_name image)), s,
         [EvInline c [image] (Some false)])).
Proof.
  intros Hfp Hfits.
  assert (H1 : forall flag,
             SpecModel.expansion default_expand flag = false ->
             SpecModel.inline footprint default_expand canvas [image] flag
             = (canvas, Raise (OutOfBoundsError (SpecModel.source_name image)))).
  { intros flag Hflag.
    apply (inline_stops_at_out_of_bounds footprint default_expand []
             canvas canvas [] image [] flag x0 y0 block Hflag eq_refl Hfp Hfits). }
  split; [exact H1 | split].
  - intros flag canvas0 pre recs post Hflag Hpre.
    apply (inline_stops_at_out_of_bounds footprint default_expand pre
             canvas0 canvas recs image post flag x0 y0 block Hflag Hpre Hfp Hfits).
  - intros W c s HW Hc. unfold_driver; norm. rewrite Hc, HW; norm.
    rewrite (H1 (Some false) eq_refl).
    norm. rewrite list_insert_id by exact Hc. destruct s; reflexivity.
Qed.

Lemma out_of_bounds_leaves_canvas_witness :
  SpecModel.inline SpecModel.aligned_footprint true Examples.small_canvas
    [Examples.image_b] (Some false)
  = (Examples.small_canvas, Raise (OutOfBoundsError "NoName"))
  /\ state_of (call_mosaic_inline Examples.W 0 [Examples.image_b] (Some false)
                 (mkState [Examples.small_canvas] ∅))
     = mkState [Examples.small_canvas] ∅.
Proof.
  destruct (out_of_bounds_leaves_canvas SpecModel.aligned_footprint true
              Examples.small_canvas Examples.image_b 2%Z 0%Z
              (img_data Examples.image_b))
    as (H1 & _ & H3).
  - vm_compute. reflexivity.
  - vm_compute. reflexivity.
  - split.
    + apply (H1 (Some false)). reflexivity.
    + rewrite (H3 Examples.W 0 (mkState [Examples.small_canvas] ∅) eq_refl eq_refl).
      reflexivity.
Defined.

(** ** The command line with [io_fits] bound

    What lines 97-107 do once the name is there: the mosaic of the two
    input files is written to the output path, in place of the file that
    was there. *)
Example main_writes_when_io_fits_is_bound :
  let options := mkOptions None (Some "b.fits") in
  let o := main_in ("io_fits" :: module_globals) Examples.W options
             [Path "a.fits"; Path "b.fits"] Examples.two_files in
  result_of o = Ok tt
  /\ List.filter (fun e => match e with
                           | EvIoFitsUse _ | EvRemove _ | EvSaveAsFile _ _ => true
                           | _ => false
                           end) (events_of o)
     = [EvIoFitsUse "astropy"; EvRemove "b.fits"; EvSaveAsFile 0 "b.fits"]
  /\ (exists canvas,
        heap (state_of o) !! 0 = Some canvas
        /\ fs (state_of o) !! "b.fits" = Some (RegularFile canvas)
        /\ img_data canvas = [[1; 2; 5; 6]; [3; 4; 7; 8]]%Q).
Proof.
  vm_compute. split; [reflexivity | split; [reflexivity |]].
  eexists. repeat split; reflexivity.
Qed.

(** * Further properties of the driver *)

Lemma rotation_calls_cons e t :
  rotation_calls (e :: t)
  = match e with
    | EvRotationAndScale hdr => [hdr]
    | _ => []
    end ++ rotation_calls t.
Proof. destruct e; reflexivity. Qed.

Lemma load_calls_cons e t :
  load_calls (e :: t)
  = match e with
    | EvLoadData p => [p]
    | _ => []
    end ++ load_calls t.
Proof. destruct e; reflexivity. Qed.

Lemma io_fits_calls_cons e t :
  io_fits_calls (e :: t)
  = match e with
    | EvIoFitsLoadFile p => [p]
    | _ => []
    end ++ io_fits_calls t.
Proof. destruct e; reflexivity. Qed.

Lemma inlining_names_cons e t :
  inlining_names (e :: t)
  = match e with
    | EvLog _ _ (MsgInlining name) => [name]
    | _ => []
    end ++ inlining_names t.
Proof. destruct e as [lg lvl m| | | | | | | |]; try reflexivity; destruct m; reflexivity. Qed.

Lemma processing_names_cons e t :
  processing_names (e :: t)
  = match e with
    | EvLog _ _ (MsgProcessing name) => [name]
    | _ => []
    end ++ processing_names t.
Proof. destruct e as [lg lvl m| | | | | | | |]; try reflexivity; destruct m; reflexivity. Qed.

Lemma done_records_cons e t :
  done_records (e :: t)
  = match e with
    | EvLog logger lvl MsgDone => [(logger, lvl)]
    | _ => []
    end ++ done_records t.
Proof. destruct e as [lg lvl m| | | | | | | |]; try reflexivity; destruct m; reflexivity. Qed.

Lemma rotation_calls_app t1 t2 :
  rotation_calls (t1 ++ t2) = rotation_calls t1 ++ rotation_calls t2.
Proof. apply omap_app. Qed.

Lemma load_calls_app t1 t2 :
  load_calls (t1 ++ t2) = load_calls t1 ++ load_calls t2.
Proof. apply omap_app. Qed.

Lemma io_fits_calls_app t1 t2 :
  io_fits_calls (t1 ++ t2) = io_fits_calls t1 ++ io_fits_calls t2.
Proof. apply omap_app. Qed.

Lemma inlining_names_app t1 t2 :
  inlining_names (t1 ++ t2) = inlining_names t1 ++ inlining_names t2.
Proof. apply omap_app. Qed.

Lemma processing_names_app t1 t2 :
  processing_names (t1 ++ t2) = processing_names t1 ++ processing_names t2.
Proof. apply omap_app. Qed.

Lemma done_records_app t1 t2 :
  done_records (t1 ++ t2) = done_records t1 ++ done_records t2.
Proof. apply omap_app. Qed.

(** As [calls], for the further readings. *)
Ltac reads :=
  repeat rewrite rotation_calls_cons in *;
  repeat rewrite load_calls_cons in *;
  repeat rewrite io_fits_calls_cons in *;
  repeat rewrite inlining_names_cons in *;
  repeat rewrite processing_names_cons in *;
  repeat rewrite done_records_cons in *;
  change (rotation_calls []) with (@nil (gmap string Q)) in *;
  change (load_calls []) with (@nil string) in *;
  change (io_fits_calls []) with (@nil string) in *;
  change (inlining_names []) with (@nil string) in *;
  change (processing_names []) with (@nil string) in *;
  change (done_records []) with (@nil (string * Level)) in *;
  cbn beta iota delta [app] in *.

(** Unfolds one round of the loop in the module's own namespace. *)
Ltac module_round :=
  cbn beta iota delta [mosaic_loop map]; fold mosaic_loop;
  unfold call_io_fits_load_file; module_names; unfold_driver; norm.

(** Unfolds [mosaic_first] in the module's own namespace and runs it. *)
Ltac run_module_first :=
  unfold mosaic_first, resolve_item_0, call_load_data,
    call_get_rotation_and_scale, call_create_blank_image;
  module_names; run_first.

Section ModuleLoop.

Variable W : Collaborators.
Variable logger : string.
Variable c : nat.

(** In the module's namespace the loop calls no loader and no extractor
    and does not log the final record. *)
Lemma module_loop_quiet items : forall count s,
  let t := events_of (mosaic_loop module_globals W logger c count items s) in
  load_calls t = [] /\ io_fits_calls t = [] /\ rotation_calls t = []
  /\ done_records t = [] /\ processing_names t = [].
Proof.
  induction items as [|item rest IH]; intros count s.
  - cbn. auto.
  - module_round.
    repeat run_step.
    all: try use_IH IH.
    all: reads; auto.
Qed.

(** In the module's namespace the loop over loaded images places them in
    the order of the list, each reported under its name or, for want of
    one, under [image<n>] with [n] counting on from [count]; it stops at
    the first one whose placement fails. *)
Lemma module_loop_order images : forall count s,
  let o := mosaic_loop module_globals W logger c count (map Loaded images) s in
  exists k,
    k <= length images
    /\ inline_calls (events_of o)
       = map (fun image => (c, [image], None)) (take k images)
    /\ inlining_names (events_of o)
       = imap (fun i image => image_get_name image (default_name (count + i)))
           (take k images)
    /\ (result_of o = Ok tt -> k = length images).
Proof.
  induction images as [|image rest IH]; intros count s.
  - exists 0. cbn. auto.
  - module_round.
    repeat run_step.
    all: try use_IH IH.
    all: try destruct IH as (k & Hk & Hc & Hn & Hok).
    all: calls; reads.
    + exists (S k). cbn [take length map].
      rewrite Hc, Hn, imap_cons, Nat.add_0_r.
      split; [lia|]. split; [reflexivity|]. split.
      * f_equal. apply imap_ext. intros j x _. cbn. f_equal. f_equal. lia.
      * intros H. f_equal. auto.
    + exists 1. cbn [take length map]. rewrite take_0, imap_cons, Nat.add_0_r.
      split; [lia|]. split; [reflexivity|]. split; [reflexivity | discriminate].
    + exists 1. cbn [take length map]. rewrite take_0, imap_cons, Nat.add_0_r.
      split; [lia|]. split; [reflexivity|]. split; [reflexivity | discriminate].
Qed.

End ModuleLoop.

(** What [mosaic_first] does in the module's namespace, whatever the
    outcome: the one load is that of item 0 when it is a path; the files
    are left alone; the heap is as it was or has the canvas as one more
    object; item 0 is reported at most once, under [name_0]. *)
Lemma module_first_reads W logger itemlist fov s :
  let o := mosaic_first module_globals W logger itemlist fov s in
  load_calls (events_of o) = loader_paths itemlist
  /\ io_fits_calls (events_of o) = []
  /\ done_records (events_of o) = []
  /\ inlining_names (events_of o) = []
  /\ fs (state_of o) = fs s
  /\ (heap (state_of o) = heap s
      \/ exists canvas, heap (state_of o) = heap s ++ [canvas])
  /\ (processing_names (events_of o) = []
      \/ exists item0 rest,
           itemlist = item0 :: rest
           /\ processing_names (events_of o) = [name_0 item0]).
Proof.
  run_module_first.
  all: reads; cbn [loader_paths name_0].
  all: repeat split; eauto.
Qed.

(** The extractor calls of [mosaic_first], in any namespace: none, or
    item 0's header, or item 0's header and then the header of the canvas
    that the allocator returned. *)
Lemma first_rotation_calls g W logger itemlist fov s :
  let t := events_of (mosaic_first g W logger itemlist fov s) in
  rotation_calls t = []
  \/ exists item0 rest image0,
       itemlist = item0 :: rest
       /\ image_0 W s item0 = Ok image0
       /\ (rotation_calls t = [img_header image0]
           \/ exists ra dec rot cdelt1 cdelt2 canvas0,
                img_header image0 !! "CRVAL1" = Some ra
                /\ img_header image0 !! "CRVAL2" = Some dec
                /\ wcs_get_rotation_and_scale W (img_header image0)
                   = Ok (rot, cdelt1, cdelt2)
                /\ dp_create_blank_image W ra dec fov (math_fabs cdelt1) rot
                     (np_sign cdelt1, np_sign cdelt2) = Ok canvas0
                /\ rotation_calls t = [img_header image0; img_header canvas0]).
Proof.
  run_first.
  all: reads.
  all: try (left; reflexivity).
  all: right; do 3 eexists; split; [reflexivity|]; split; [cbn [image_0]; eauto|].
  all: try (left; reflexivity).
  all: right; repeat eexists; eauto.
Qed.

Lemma module_first_ok_names W logger item0 rest fov s c s1 t1 :
  mosaic_first module_globals W logger (item0 :: rest) fov s = (Ok c, s1, t1) ->
  processing_names t1 = [name_0 item0] /\ inlining_names t1 = [].
Proof.
  revert c s1 t1. run_module_first.
  all: intros c' s1' t1' H; try discriminate H.
  all: injection H as <- <- <-.
  all: reads; cbn [name_0]; auto.
Qed.

Lemma same_but_last (h h2 : list Image) (x : Image) :
  length h2 = length (h ++ [x]) ->
  (forall loc, loc <> length h -> h2 !! loc = (h ++ [x]) !! loc) ->
  exists y, h2 = h ++ [y].
Proof.
  intros Hlen Hother. rewrite length_app in Hlen. cbn in Hlen.
  destruct (lookup_lt_is_Some_2 h2 (length h)) as [y Hy]; [lia|].
  exists y. apply list_eq. intros i.
  destruct (decide (i = length h)) as [->|Hne].
  - rewrite Hy, lookup_new_object. reflexivity.
  - rewrite (Hother i Hne), !lookup_old_object by exact Hne. reflexivity.
Qed.

(** X1: whatever the outcome of [mosaic], returned or raised, the files
    are as they were and so is every object that was there before the
    call; the run adds at most one object, the canvas. *)
Theorem mosaic_leaves_files_and_objects W logger itemlist fov s :
  let o := mosaic W logger itemlist fov s in
  fs (state_of o) = fs s
  /\ (heap (state_of o) = heap s
      \/ exists canvas, heap (state_of o) = heap s ++ [canvas]).
Proof.
  cbn zeta. unfold mosaic.
  pose proof (module_first_reads W logger itemlist fov s) as Hf. cbn zeta in Hf.
  destruct (mosaic_first module_globals W logger itemlist fov s)
    as [[[c|e] s1] t1] eqn:H1; norm.
  - rewrite (mosaic_in_first_ok _ _ _ _ _ _ _ _ _ H1).
    destruct (first_inversion _ _ _ _ _ _ _ _ _ H1)
      as (item0 & rest & image0 & ra & dec & rot & c1 & c2 & canvas0 & canvas1
          & -> & _ & _ & _ & _ & _ & _ & _ & -> & -> & _ & _).
    pose proof (loop_state module_globals W logger (length (heap s))
                  (tail (item0 :: rest)) 1
                  (mkState (heap s ++ [canvas1]) (fs s))) as Hst.
    cbn zeta in Hst.
    destruct (mosaic_loop module_globals W logger (length (heap s)) 1
                (tail (item0 :: rest)) (mkState (heap s ++ [canvas1]) (fs s)))
      as [[[u|e] s2] t2]; norm; destruct Hst as (Hfs & Hlen & Hother).
    all: split; [exact Hfs | right].
    all: apply (same_but_last (heap s) (heap s2) canvas1 Hlen Hother).
  - rewrite (mosaic_in_first_raises _ _ _ _ _ _ _ _ _ H1). norm.
    destruct Hf as (_ & _ & _ & _ & Hfs & Hheap & _). auto.
Qed.

(** X2: the only file [mosaic] loads is item 0, through
    [loader.load_data], when item 0 is a path; in no run is
    [io_fits.load_file] called. *)
Theorem mosaic_loads_item_0_only W logger itemlist fov s :
  let o := mosaic W logger itemlist fov s in
  load_calls (events_of o) = loader_paths itemlist
  /\ io_fits_calls (events_of o) = [].
Proof.
  cbn zeta. unfold mosaic.
  pose proof (module_first_reads W logger itemlist fov s) as Hf. cbn zeta in Hf.
  destruct (mosaic_first module_globals W logger itemlist fov s)
    as [[[c|e] s1] t1] eqn:H1; norm; destruct Hf as (Hl & Hio & _).
  - rewrite (mosaic_in_first_ok _ _ _ _ _ _ _ _ _ H1).
    pose proof (module_loop_quiet W logger c (tail itemlist) 1 s1) as Hq.
    cbn zeta in Hq.
    destruct (mosaic_loop module_globals W logger c 1 (tail itemlist) s1)
      as [[[u|e'] s2] t2]; norm; destruct Hq as (Hl2 & Hio2 & _).
    + rewrite !load_calls_app, !io_fits_calls_app, Hl, Hio, Hl2, Hio2.
      reads. rewrite !app_nil_r. auto.
    + rewrite !load_calls_app, !io_fits_calls_app, Hl, Hio, Hl2, Hio2.
      rewrite !app_nil_r. auto.
  - rewrite (mosaic_in_first_raises _ _ _ _ _ _ _ _ _ H1). auto.
Qed.

(** X3: [mosaic] asks for rotation and scale at most twice: for the
    header of item 0 and then for the header of the canvas the allocator
    returned.  The header of no later item is looked at. *)
Theorem extractor_sees_item_0_and_canvas W logger itemlist fov s :
  let t := events_of (mosaic W logger itemlist fov s) in
  rotation_calls t = []
  \/ exists item0 rest image0,
       itemlist = item0 :: rest
       /\ image_0 W s item0 = Ok image0
       /\ (rotation_calls t = [img_header image0]
           \/ exists ra dec rot cdelt1 cdelt2 canvas0,
                img_header image0 !! "CRVAL1" = Some ra
                /\ img_header image0 !! "CRVAL2" = Some dec
                /\ wcs_get_rotation_and_scale W (img_header image0)
                   = Ok (rot, cdelt1, cdelt2)
                /\ dp_create_blank_image W ra dec fov (math_fabs cdelt1) rot
                     (np_sign cdelt1, np_sign cdelt2) = Ok canvas0
                /\ rotation_calls t = [img_header image0; img_header canvas0]).
Proof.
  cbn zeta. unfold mosaic.
  pose proof (first_rotation_calls module_globals W logger itemlist fov s) as Hf.
  cbn zeta in Hf.
  destruct (mosaic_first module_globals W logger itemlist fov s)
    as [[[c|e] s1] t1] eqn:H1; norm.
  - rewrite (mosaic_in_first_ok _ _ _ _ _ _ _ _ _ H1).
    pose proof (module_loop_quiet W logger c (tail itemlist) 1 s1) as Hq.
    cbn zeta in Hq.
    destruct (mosaic_loop module_globals W logger c 1 (tail itemlist) s1)
      as [[[u|e'] s2] t2]; norm; destruct Hq as (_ & _ & Hr & _).
    + rewrite !rotation_calls_app, Hr. reads. rewrite !app_nil_r. exact Hf.
    + rewrite !rotation_calls_app, Hr. rewrite !app_nil_r. exact Hf.
  - rewrite (mosaic_in_first_raises _ _ _ _ _ _ _ _ _ H1). exact Hf.
Qed.

(** X4: the final record ("Done.") is logged exactly by the runs that
    return: once, at level [info], as the last thing the run does; a run
    that raises has not logged it. *)
Theorem done_logged_on_return W logger itemlist fov s :
  let o := mosaic W logger itemlist fov s in
  match result_of o with
  | Ok _ =>
      done_records (events_of o) = [(logger, Info)]
      /\ last (events_of o) = Some (EvLog logger Info MsgDone)
  | Raise _ => done_records (events_of o) = []
  end.
Proof.
  cbn zeta. unfold mosaic.
  pose proof (module_first_reads W logger itemlist fov s) as Hf. cbn zeta in Hf.
  destruct (mosaic_first module_globals W logger itemlist fov s)
    as [[[c|e] s1] t1] eqn:H1; norm; destruct Hf as (_ & _ & Hd & _).
  - rewrite (mosaic_in_first_ok _ _ _ _ _ _ _ _ _ H1).
    pose proof (module_loop_quiet W logger c (tail itemlist) 1 s1) as Hq.
    cbn zeta in Hq.
    destruct (mosaic_loop module_globals W logger c 1 (tail itemlist) s1)
      as [[[u|e'] s2] t2]; norm; destruct Hq as (_ & _ & _ & Hd2 & _).
    + rewrite !done_records_app, Hd, Hd2. reads. split; [reflexivity|].
      rewrite app_assoc. apply last_snoc.
    + rewrite !done_records_app, Hd, Hd2. reflexivity.
  - rewrite (mosaic_in_first_raises _ _ _ _ _ _ _ _ _ H1). exact Hd.
Qed.

(** X5: on a list whose later items are loaded images, a run of
    [mosaic] that returns has placed item 0 with the flag and then the
    later images, one call each, in the order of the list, all on the
    canvas it returns.  Item 0 is reported under its name, a path under
    the path; a later image is reported under its name or, when it has
    none, under [image<i>], [i] its position in the list. *)
Theorem loaded_items_placed_in_order W logger item0 images fov s c :
  let o := mosaic W logger (item0 :: map Loaded images) fov s in
  result_of o = Ok c ->
  exists image0,
    image_0 W s item0 = Ok image0
    /\ inline_calls (events_of o)
       = (c, [image0], Some (expand_of fov))
         :: map (fun image => (c, [image], None)) images
    /\ processing_names (events_of o) = [name_0 item0]
    /\ inlining_names (events_of o)
       = imap (fun i image => image_get_name image (default_name (S i))) images.
Proof.
  cbn zeta. unfold mosaic. intros Hc.
  destruct (mosaic_first module_globals W logger (item0 :: map Loaded images) fov s)
    as [[[c1|e] s1] t1] eqn:H1.
  - rewrite (mosaic_in_first_ok _ _ _ _ _ _ _ _ _ H1) in *. cbn [tail] in *.
    destruct (module_first_ok_names _ _ _ _ _ _ _ _ _ H1) as [Hp Hn].
    destruct (first_inversion _ _ _ _ _ _ _ _ _ H1)
      as (item0' & rest & image0 & ra & dec & rot & cd1 & cd2 & canvas0 & canvas1
          & [= <- <-] & Hi & _ & _ & _ & _ & _ & _ & -> & _ & _ & Hinl).
    pose proof (module_loop_order W logger (length (heap s)) images 1 s1) as Ho.
    pose proof (module_loop_quiet W logger (length (heap s)) (map Loaded images) 1 s1)
      as Hq.
    cbn zeta in Ho, Hq.
    destruct (mosaic_loop module_globals W logger (length (heap s)) 1
                (map Loaded images) s1)
      as [[[u|e] s2] t2]; norm; [|discriminate].
    injection Hc as <-.
    destruct Ho as (k & _ & Hcalls & Hnames & Hk).
    destruct Hq as (_ & _ & _ & _ & Hp2).
    rewrite (Hk ltac:(destruct u; reflexivity)), firstn_all in *.
    exists image0. split; [exact Hi|].
    rewrite !inline_calls_app, !processing_names_app, !inlining_names_app.
    rewrite Hinl, Hcalls, Hp, Hp2, Hn, Hnames. calls. reads.
    rewrite !app_nil_r. auto.
  - rewrite (mosaic_in_first_raises _ _ _ _ _ _ _ _ _ H1) in Hc. discriminate.
Qed.

Lemma loaded_items_placed_in_order_witness :
  let o := mosaic Examples.W "mosaic"
             (Loaded Examples.image_a
              :: map Loaded [Examples.image_b; Examples.image_a]) None
             Examples.no_files in
  inline_calls (events_of o)
  = [(0, [Examples.image_a], Some true); (0, [Examples.image_b], None);
     (0, [Examples.image_a], None)]
  /\ processing_names (events_of o) = ["A"]
  /\ inlining_names (events_of o) = ["image1"; "A"].
Proof.
  cbn zeta.
  destruct (loaded_items_placed_in_order Examples.W "mosaic"
              (Loaded Examples.image_a) [Examples.image_b; Examples.image_a]
              None Examples.no_files 0)
    as (image0 & Hi & Hc & Hp & Hn).
  - vm_compute. reflexivity.
  - injection Hi as <-. rewrite Hc, Hp, Hn. repeat split; reflexivity.
Defined.

(** X6: the default names tell the positions apart: ['image%d' % count]
    is a different name for every count, and the default of item 0 is the
    one for count 0. *)
Theorem default_names_tell_positions_apart :
  (forall m n, default_name m = default_name n -> m = n)
  /\ (forall image0, img_name image0 = None ->
                     name_0 (Loaded image0) = default_name 0).
Proof.
  split.
  - intros m n H. unfold default_name in H. cbn [String.append] in H.
    injection H as H. change (String.append "" ?x) with x in H.
    apply DecimalNat.Unsigned.to_uint_inj.
    pose proof (DecimalString.NilEmpty.usu (Nat.to_uint m)) as Hm.
    pose proof (DecimalString.NilEmpty.usu (Nat.to_uint n)) as Hn.
    rewrite H in Hm. rewrite Hm in Hn. injection Hn as Hn. exact Hn.
  - intros image0 H. unfold name_0, image_get_name. rewrite H. reflexivity.
Qed.

Lemma default_names_tell_positions_apart_witness :
  12 = 12 /\ name_0 (Loaded Examples.image_b) = "image0".
Proof.
  split.
  - apply (proj1 default_names_tell_positions_apart 12 12). reflexivity.
  - apply (proj2 default_names_tell_positions_apart Examples.image_b). reflexivity.
Defined.




Lemma global_bound g n :
  existsb (String.eqb n) g = true -> global g n = ret tt.
Proof. intros H. unfold global. rewrite H. reflexivity. Qed.

(** X9: lines 97-107 in a namespace that binds [log], [mosaic],
    [io_fits] and [os].  When [mosaic] has returned canvas [c] and an
    output file is named, [main] selects the astropy writer, logs the
    path, removes the file at the path if it is a regular file, goes on
    if there is none or it cannot be removed, and then has the canvas
    written to the path: the outcome of [main] is the writer's, on the
    files without the old one. *)
Theorem main_removes_then_writes g W options args s outfile c s1 t1 :
  Forall (fun n => existsb (String.eqb n) g = true)
    ["log"; "mosaic"; "io_fits"; "os"] ->
  outfile_given options = Some outfile ->
  mosaic_in g W "mosaic" args (opt_fov options) s = (Ok c, s1, t1) ->
  exists canvas,
    heap s1 !! c = Some canvas
    /\ main_in g W options args s
       = (snd (image_save_as_file W canvas outfile (removed outfile (fs s1))),
          mkState (heap s1)
            (fst (image_save_as_file W canvas outfile (removed outfile (fs s1)))),
          t1 ++ [EvIoFitsUse "astropy"; EvLog "mosaic" Info (MsgWriting outfile);
                 EvRemove outfile; EvSaveAsFile c outfile]).
Proof.
  intros Hg Hout Hm.
  apply Forall_cons_1 in Hg as [Hlog Hg]. apply Forall_cons_1 in Hg as [Hmos Hg].
  apply Forall_cons_1 in Hg as [Hio Hg]. apply Forall_cons_1 in Hg as [Hos _].
  pose proof (mosaic_in_heap g W "mosaic" args (opt_fov options) s c) as Hh.
  cbn zeta in Hh. rewrite Hm in Hh. norm.
  destruct (Hh eq_refl) as (Hc & Hlen & _).
  destruct (lookup_lt_is_Some_2 (heap s1) c) as [canvas Hcanvas]; [lia|].
  exists canvas. split; [exact Hcanvas|].
  unfold main_in, os_remove.
  rewrite (global_bound g "log" Hlog), (global_bound g "mosaic" Hmos),
    (global_bound g "io_fits" Hio), (global_bound g "os" Hos).
  unfold bind at 1 2 3. unfold ret at 1 2. rewrite Hm, Hout.
  unfold_driver; norm. unfold removed.
  destruct (fs s1 !! outfile) as [[content|]|]; norm; rewrite Hcanvas; norm;
    destruct (image_save_as_file W canvas outfile _) as [fs' r]; norm;
    reflexivity.
Qed.

Lemma main_removes_then_writes_witness :
  exists canvas,
    fs (state_of (main_in ("io_fits" :: module_globals) Examples.W
                    (mkOptions None (Some "b.fits"))
                    [Path "a.fits"] Examples.two_files)) !! "b.fits"
    = Some (RegularFile canvas)
    /\ img_data canvas = img_data Examples.image_a.
Proof.
  destruct (mosaic_in ("io_fits" :: module_globals) Examples.W "mosaic"
              [Path "a.fits"] (opt_fov (mkOptions None (Some "b.fits")))
              Examples.two_files) as [[r s1] t1] eqn:Hm.
  assert (Hr : r = Ok 0)
    by (apply (f_equal result_of) in Hm; vm_compute in Hm; symmetry; exact Hm).
  assert (Hs : s1 = state_of (mosaic_in ("io_fits" :: module_globals) Examples.W
                            "mosaic" [Path "a.fits"] None Examples.two_files))
    by (apply (f_equal state_of) in Hm; symmetry; exact Hm).
  subst r.
  destruct (main_removes_then_writes ("io_fits" :: module_globals) Examples.W
              (mkOptions None (Some "b.fits")) [Path "a.fits"] Examples.two_files
              "b.fits" 0 s1 t1)
    as (canvas & Hc & Hmain).
  - repeat constructor.
  - reflexivity.
  - exact Hm.
  - exists canvas. rewrite Hmain. subst s1. vm_compute in Hc.
    injection Hc as <-. vm_compute. split; reflexivity.
Defined.

(** * Properties of the viewer's callbacks *)

Module ViewerFacts.

Import Viewer.

Lemma py_index_ok {A} (l : list A) (i : Z) (x : A) :
  py_index l i = Ok x <->
  ((0 <= i < Z.of_nat (length l))%Z /\ l !! Z.to_nat i = Some x)
  \/ ((- Z.of_nat (length l) <= i < 0)%Z
      /\ l !! Z.to_nat (Z.of_nat (length l) + i) = Some x).
Proof.
  unfold py_index.
  destruct (Z.ltb_spec i 0) as [Hneg|Hpos].
  - destruct (Z.ltb_spec (Z.of_nat (length l) + i) 0) as [Hlow|Hin].
    + split; [discriminate|]. intros [[H _]|[H _]]; lia.
    + destruct (l !! Z.to_nat (Z.of_nat (length l) + i)) as [y|] eqn:Hy.
      * split.
        -- intros [= ->]. right. split; [lia | reflexivity].
        -- intros [[H _]|[_ [= ->]]]; [lia | reflexivity].
      * split; [discriminate|]. intros [[H _]|[_ H]]; [lia | discriminate].
  - destruct (Z.ltb_spec i 0) as [Hneg|_]; [lia|].
    destruct (l !! Z.to_nat i) as [y|] eqn:Hy.
    + split.
      * intros [= ->]. left. split; [|reflexivity].
        apply lookup_lt_Some in Hy. lia.
      * intros [[_ [= ->]]|[H _]]; [reflexivity | lia].
    + split; [discriminate|]. intros [[_ H]|[H _]]; [discriminate | lia].
Qed.

Lemma py_index_in_range {A} (l : list A) (i : Z) :
  (- Z.of_nat (length l) <= i < Z.of_nat (length l))%Z ->
  exists x, py_index l i = Ok x.
Proof.
  intros Hi. destruct (Z.ltb_spec i 0) as [Hneg|Hpos].
  - destruct (lookup_lt_is_Some_2 l (Z.to_nat (Z.of_nat (length l) + i)))
      as [x Hx]; [lia|].
    exists x. apply py_index_ok. right. split; [lia | exact Hx].
  - destruct (lookup_lt_is_Some_2 l (Z.to_nat i)) as [x Hx]; [lia|].
    exists x. apply py_index_ok. left. split; [lia | exact Hx].
Qed.

Lemma py_index_out_of_range {A} (l : list A) (i : Z) :
  (i < - Z.of_nat (length l) \/ Z.of_nat (length l) <= i)%Z ->
  py_index l i = Raise IndexError.
Proof.
  intros Hi. destruct (py_index l i) as [x|e] eqn:H.
  - apply py_index_ok in H. lia.
  - unfold py_index in H.
    destruct (_ <? 0)%Z; [congruence|].
    destruct (l !! _); congruence.
Qed.

Lemma py_index_raises {A} (l : list A) (i : Z) (e : Exn) :
  py_index l i = Raise e -> e = IndexError.
Proof.
  unfold py_index. destruct (_ <? 0)%Z; [congruence|].
  destruct (l !! _); congruence.
Qed.

Lemma drawtype_calls_cons e t :
  drawtype_calls (e :: t)
  = match e with
    | EvSetDrawtype kind params => [(kind, params)]
    | _ => []
    end ++ drawtype_calls t.
Proof. destruct e; reflexivity. Qed.

Lemma mode_calls_cons e t :
  mode_calls (e :: t)
  = match e with
    | EvSetDrawMode mode => [mode]
    | _ => []
    end ++ mode_calls t.
Proof. destruct e; reflexivity. Qed.

Lemma warnings_cons e t :
  warnings (e :: t)
  = match e with
    | EvLog Warning msg => [msg]
    | _ => []
    end ++ warnings t.
Proof. destruct e as [[] m| | | | | | | | | |]; reflexivity. Qed.

Lemma load_requests_cons e t :
  load_requests (e :: t)
  = match e with
    | EvLoadData p => [p]
    | _ => []
    end ++ load_requests t.
Proof. destruct e; reflexivity. Qed.

Ltac vunfold :=
  unfold handle, forget, set_drawparams, clear_canvas, open_file, drop_file_cb,
    load_file, call_set_image, set_window_title, cursor_cb, call_get_data,
    call_pixtoradec, set_readout, set_mode_cb, draw_cb, pick_cb, edit_cb,
    call_set_drawtype, vtry, vbind, vemit, vlift, vget, vput, vret in *.

Ltac vnorm :=
  cbn beta iota delta
    [fst snd app negb is_False add_pick_callbacks pick_events
     drawtypes drawcolors wdrawtype_index wdrawcolor_index wfill_checkstate
     walpha_value readout shown_image window_title] in *.

Ltac vreads :=
  repeat rewrite drawtype_calls_cons in *;
  repeat rewrite mode_calls_cons in *;
  repeat rewrite warnings_cons in *;
  repeat rewrite load_requests_cons in *;
  change (drawtype_calls []) with (@nil (string * gmap string PyVal)) in *;
  change (mode_calls []) with (@nil string) in *;
  change (warnings []) with (@nil Msg) in *;
  change (load_requests []) with (@nil string) in *;
  cbn beta iota delta [app] in *.

Ltac vstep :=
  match goal with
  | |- ?G => innermost_in G
  end; vnorm.

Ltac vrun := vunfold; vnorm; vunfold; vnorm; repeat vstep.

(** X10: what [set_drawparams] passes on.  A call of [set_drawtype]
    made by [set_drawparams] names the draw type selected in the combo
    box, whatever the signal carried, with the selected colour and the
    alpha of the spin box as [color] and [alpha]; for the kinds listed
    in line 175-176 it also gives [fill], true unless the check state
    is 0, and [fillalpha], equal to [alpha]; for every other kind it
    gives neither. *)
Theorem drawparams_content E arg w kind params :
  In (kind, params) (drawtype_calls (snd (set_drawparams E arg w))) ->
  py_index (drawtypes w) (wdrawtype_index w) = Ok kind
  /\ (exists color,
        py_index (drawcolors w) (wdrawcolor_index w) = Ok color
        /\ params !! "color" = Some (PyStr color))
  /\ params !! "alpha" = Some (PyFloat (walpha_value w))
  /\ (In kind fillable ->
      params !! "fill" = Some (PyBool (negb (wfill_checkstate w =? 0)%Z))
      /\ params !! "fillalpha" = Some (PyFloat (walpha_value w)))
  /\ (~ In kind fillable ->
      params !! "fill" = None /\ params !! "fillalpha" = None).
Proof.
  vunfold; vnorm.
  destruct (py_index (drawtypes w) (wdrawtype_index w)) as [k|e] eqn:Hk; vnorm;
    [|intros []].
  destruct (py_index (drawcolors w) (wdrawcolor_index w)) as [col|e] eqn:Hc; vnorm;
    [|intros []].
  destruct (existsb (String.eqb k) fillable) eqn:Hf; vnorm; vreads.
  all: intros [[= <- <-]|[]].
  all: split; [reflexivity|];
    split; [exists col; split; [reflexivity | by simplify_map_eq]|].
  all: split; [by simplify_map_eq|].
  all: split; intros Hin.
  - split; by simplify_map_eq.
  - apply existsb_exists in Hf as (x & Hx & Heq).
    apply String.eqb_eq in Heq as <-. contradiction.
  - assert (existsb (String.eqb k) fillable = true)
      by (apply existsb_exists; exists k; split; [exact Hin | apply String.eqb_refl]).
    congruence.
  - split; by simplify_map_eq.
Qed.

Lemma drawparams_content_witness :
  py_index (drawtypes sample_window) (wdrawtype_index sample_window)
  = Ok "rectangle"
  /\ (<["fillalpha" := PyFloat (1 # 2)]> (<["fill" := PyBool true]>
       (<["alpha" := PyFloat (1 # 2)]> (<["color" := PyStr "lightblue"]> ∅)))
      : gmap string PyVal) !! "alpha"
     = Some (PyFloat (walpha_value sample_window)).
Proof.
  destruct (drawparams_content sample_env PyNone sample_window "rectangle"
              (<["fillalpha" := PyFloat (1 # 2)]> (<["fill" := PyBool true]>
                 (<["alpha" := PyFloat (1 # 2)]>
                    (<["color" := PyStr "lightblue"]> ∅)))))
    as (Hk & _ & Ha & _).
  - vm_compute. left. reflexivity.
  - split; [exact Hk | exact Ha].
Defined.

(** X11: the indexes of the two combo boxes.  [set_drawparams] never
    changes the window.  It calls [set_drawtype], once, exactly when both
    current indexes are valid Python indexes of their lists ([-len <= i <
    len]); otherwise it raises [IndexError] and calls nothing.  With the
    current index -1, which stands for "no current item", the draw type
    passed is the last of the list. *)
Theorem drawparams_index_range E arg w :
  let o := set_drawparams E arg w in
  let nt := Z.of_nat (length (drawtypes w)) in
  let nc := Z.of_nat (length (drawcolors w)) in
  snd (fst o) = w
  /\ ((- nt <= wdrawtype_index w < nt)%Z /\ (- nc <= wdrawcolor_index w < nc)%Z ->
      length (drawtype_calls (snd o)) = 1)
  /\ (~ ((- nt <= wdrawtype_index w < nt)%Z
         /\ (- nc <= wdrawcolor_index w < nc)%Z) ->
      fst (fst o) = Raise IndexError /\ drawtype_calls (snd o) = [])
  /\ (wdrawtype_index w = (-1)%Z ->
      forall kind params,
        In (kind, params) (drawtype_calls (snd o)) ->
        last (drawtypes w) = Some kind).
Proof.
  cbn zeta. vunfold; vnorm.
  destruct (py_index (drawtypes w) (wdrawtype_index w)) as [k|e] eqn:Hk; vnorm.
  - destruct (py_index (drawcolors w) (wdrawcolor_index w)) as [col|e] eqn:Hc; vnorm.
    + repeat vstep; vreads.
      all: split; [reflexivity|]; split; [reflexivity|]; split.
      all: try (intros Hno; exfalso; apply Hno;
                apply py_index_ok in Hk; apply py_index_ok in Hc; lia).
      all: intros Hm kind params [[= <- <-]|[]];
        rewrite Hm in Hk; apply py_index_ok in Hk;
        destruct Hk as [[Hr _]|[Hr Hl]]; [lia|];
        rewrite last_lookup, <- Hl; f_equal; lia.
    + apply py_index_raises in Hc as Hc'. subst e. vreads.
      split; [reflexivity|]. split; [|split].
      * intros [_ Hr]. destruct (py_index_in_range _ _ Hr) as [x Hx]. congruence.
      * auto.
      * intros _ kind params [].
  - apply py_index_raises in Hk as Hk'. subst e. vreads.
    split; [reflexivity|]. split; [|split].
    + intros [Hr _]. destruct (py_index_in_range _ _ Hr) as [x Hx]. congruence.
    + auto.
    + intros _ kind params [].
Qed.

Lemma drawparams_index_range_witness :
  length (drawtype_calls (snd (set_drawparams sample_env (PyInt 1) sample_window)))
  = 1.
Proof.
  apply (proj1 (proj2 (drawparams_index_range sample_env (PyInt 1) sample_window))).
  vm_compute. repeat split; discriminate.
Defined.

Lemma drop_file_cb_run E paths w :
  drop_file_cb E paths w
  = match py_index paths 0 with
    | Ok path => load_file E path w
    | Raise e => (Raise e, w, [])
    end.
Proof.
  unfold drop_file_cb, vbind, vlift.
  destruct (py_index paths 0) as [path|e]; [|reflexivity].
  destruct (load_file E path w) as [[r w'] t]. reflexivity.
Qed.

(** X12: which signal loads which file.  The "Open File" button loads
    the file the dialog names, and nothing when the name is empty (the
    dialog was cancelled); a drop loads the first of the dropped paths
    and no other, and raises [IndexError] when there is none; no other
    signal loads a file. *)
Theorem files_loaded_by_signals E sig w :
  let o := handle E sig w in
  load_requests (snd o)
  = match sig with
    | OpenClicked res =>
        if Nat.eqb (String.length (dialog_name res)) 0 then []
        else [dialog_name res]
    | DragDrop (path :: _) => [path]
    | _ => []
    end
  /\ (sig = DragDrop [] -> o = (Raise IndexError, w, [])).
Proof.
  cbn zeta. split.
  - destruct sig as [i|i|st|a| |res|paths|x y|v|v|v|tag].
    + vrun; vreads; reflexivity.
    + vrun; vreads; reflexivity.
    + vrun; vreads; reflexivity.
    + vrun; vreads; reflexivity.
    + reflexivity.
    + cbn [handle]. unfold open_file. fold (dialog_name res).
      destruct (Nat.eqb (String.length (dialog_name res)) 0); vnorm;
        [reflexivity|].
      vrun; vreads; reflexivity.
    + destruct paths as [|path rest]; [reflexivity|].
      cbn [handle]. rewrite drop_file_cb_run.
      change (py_index (path :: rest) 0) with (Ok path). cbn beta iota.
      vrun; vreads; reflexivity.
    + vrun; vreads; reflexivity.
    + destruct v; vrun; vreads; reflexivity.
    + destruct v; vrun; vreads; reflexivity.
    + destruct v; vrun; vreads; reflexivity.
    + vrun; vreads; reflexivity.
  - intros ->. reflexivity.
Qed.

Lemma files_loaded_by_signals_witness :
  handle sample_env (DragDrop []) sample_window
  = (Raise IndexError, sample_window, []).
Proof.
  apply (proj2 (files_loaded_by_signals sample_env (DragDrop []) sample_window)).
  reflexivity.
Defined.

(** Only the "Open File" button and a drop change the shown image or
    the title. *)
Lemma other_signals_keep_image E sig w :
  match sig with
  | OpenClicked _ | DragDrop _ => True
  | _ =>
      shown_image (snd (fst (handle E sig w))) = shown_image w
      /\ window_title (snd (fst (handle E sig w))) = window_title w
  end.
Proof.
  destruct sig as [i|i|st|a| |res|paths|x y|v|v|v|tag]; try exact I.
  - vrun; split; first [reflexivity | congruence].
  - vrun; split; first [reflexivity | congruence].
  - vrun; split; first [reflexivity | congruence].
  - vrun; split; first [reflexivity | congruence].
  - split; first [reflexivity | congruence].
  - vrun; split; first [reflexivity | congruence].
  - destruct v; vrun; split; first [reflexivity | congruence].
  - destruct v; vrun; split; first [reflexivity | congruence].
  - destruct v; vrun; split; first [reflexivity | congruence].
  - vrun; split; first [reflexivity | congruence].
Qed.

(** X13: the title names the file of the shown image.  When
    [set_image] either shows the new image or raises and keeps the old
    one, every signal, whether its slot returns or raises, leaves a
    window in which the title is the path that the shown image was
    loaded from, if it finds one. *)
Theorem title_follows_image E sig w :
  set_image_atomic E ->
  title_matches_image E w ->
  title_matches_image E (snd (fst (handle E sig w))).
Proof.
  intros Hat Hinv. unfold title_matches_image in *.
  assert (Hload : forall p,
    match shown_image (snd (fst (load_file E p w))) with
    | Some image => load_data E (window_title (snd (fst (load_file E p w)))) = Ok image
    | None => True
    end).
  { intros p. vunfold; vnorm.
    destruct (load_data E p) as [image|e] eqn:Hl; vnorm; [|exact Hinv].
    pose proof (Hat (shown_image w) image) as Ha.
    destruct (viewer_set_image E (shown_image w) image) as [shown' [u|e]]; vnorm;
      subst shown'; [exact Hl | exact Hinv]. }
  pose proof (other_signals_keep_image E sig w) as Hk.
  destruct sig as [i|i|st|a| |res|paths|x y|v|v|v|tag].
  1-5, 8-12: destruct Hk as [Hs Ht]; rewrite Hs, Ht; exact Hinv.
  - cbn [handle]. unfold open_file.
    destruct (negb _); [apply Hload | exact Hinv].
  - cbn [handle]. rewrite drop_file_cb_run.
    destruct (py_index paths 0) as [path|e]; [apply Hload | exact Hinv].
Qed.

Lemma title_follows_image_witness :
  title_matches_image sample_env
    (snd (fst (handle sample_env (OpenClicked (ResTuple "a.fits" "FITS"))
                 sample_window))).
Proof.
  apply title_follows_image.
  - intros shown image. reflexivity.
  - exact I.
Defined.

(** X14: no slot changes the settings of the widgets: after any signal
    the lists of draw types and colours, the two current indexes, the
    check state and the alpha are what they were. *)
Theorem signals_keep_settings E sig w :
  settings (snd (fst (handle E sig w))) = settings w.
Proof.
  destruct sig as [i|i|st|a| |res|paths|x y|v|v|v|tag].
  - vrun; reflexivity.
  - vrun; reflexivity.
  - vrun; reflexivity.
  - vrun; reflexivity.
  - reflexivity.
  - cbn [handle]. unfold open_file.
    destruct (negb _); [|reflexivity]. vrun; reflexivity.
  - cbn [handle]. rewrite drop_file_cb_run.
    destruct (py_index paths 0) as [path|e]; [|reflexivity].
    vrun; reflexivity.
  - vrun; reflexivity.
  - destruct v; vrun; reflexivity.
  - destruct v; vrun; reflexivity.
  - destruct v; vrun; reflexivity.
  - vrun; reflexivity.
Qed.








(** X18: the mode buttons.  Checking "Draw", "Edit" or "Pick" sets the
    canvas's draw mode to [draw], [edit] or [pick]; unchecking one sets
    nothing; no other signal sets the draw mode. *)
Theorem mode_buttons E sig w :
  mode_calls (snd (handle E sig w))
  = match sig with
    | DrawToggled true => ["draw"]
    | EditToggled true => ["edit"]
    | PickToggled true => ["pick"]
    | _ => []
    end.
Proof.
  destruct sig as [i|i|st|a| |res|paths|x y|v|v|v|tag].
  - vrun; vreads; reflexivity.
  - vrun; vreads; reflexivity.
  - vrun; vreads; reflexivity.
  - vrun; vreads; reflexivity.
  - reflexivity.
  - cbn [handle]. unfold open_file.
    destruct (negb _); [|reflexivity]. vrun; vreads; reflexivity.
  - cbn [handle]. rewrite drop_file_cb_run.
    destruct (py_index paths 0) as [path|e]; [|reflexivity].
    vrun; vreads; reflexivity.
  - vrun; vreads; reflexivity.
  - destruct v; vrun; vreads; reflexivity.
  - destruct v; vrun; vreads; reflexivity.
  - destruct v; vrun; vreads; reflexivity.
  - vrun; vreads; reflexivity.
Qed.

(** X19: what [draw_cb] registers.  When the canvas has no object
    under the tag, [draw_cb] raises what [get_object_by_tag] raised and
    registers nothing.  Otherwise it returns, leaves the window as it
    was, and makes exactly these eight registrations on that object, in
    this order: [pick_cb] for "pick-down", "pick-up", "pick-move",
    "pick-hover", "pick-enter", "pick-leave" and "pick-key", told "down",
    "up", "move", "hover", "enter", "leave" and "key", and then [edit_cb]
    for "edited" with nothing more.  The object is marked pickable once,
    after the seven pick registrations and before the one for "edited".
    Each registration fits its handler: [pick_cb] is told the event's
    name without "pick-", which is what it logs. *)
Theorem draw_cb_registrations E tag w :
  let o := draw_cb E tag w in
  match canvas_has_object E tag with
  | Raise e => o = (Raise e, w, [EvGetObjectByTag tag])
  | Ok _ =>
      fst (fst o) = Ok tt
      /\ snd (fst o) = w
      /\ registrations (snd o)
         = [(tag, "pick-down", "pick_cb", Some "down");
            (tag, "pick-up", "pick_cb", Some "up");
            (tag, "pick-move", "pick_cb", Some "move");
            (tag, "pick-hover", "pick_cb", Some "hover");
            (tag, "pick-enter", "pick_cb", Some "enter");
            (tag, "pick-leave", "pick_cb", Some "leave");
            (tag, "pick-key", "pick_cb", Some "key");
            (tag, "edited", "edit_cb", None)]
      /\ snd o
         = [EvGetObjectByTag tag;
            EvAddCallback tag "pick-down" "pick_cb" (Some "down");
            EvAddCallback tag "pick-up" "pick_cb" (Some "up");
            EvAddCallback tag "pick-move" "pick_cb" (Some "move");
            EvAddCallback tag "pick-hover" "pick_cb" (Some "hover");
            EvAddCallback tag "pick-enter" "pick_cb" (Some "enter");
            EvAddCallback tag "pick-leave" "pick_cb" (Some "leave");
            EvAddCallback tag "pick-key" "pick_cb" (Some "key");
            EvSetPickable tag;
            EvAddCallback tag "edited" "edit_cb" None]
      /\ length (registrations (snd o)) = 8
      /\ Forall (registration_fits tag) (registrations (snd o))
      /\ In (EvSetPickable tag) (snd o)
  end.
Proof.
  cbn zeta. vunfold; vnorm; vunfold; vnorm.
  destruct (canvas_has_object E tag) as [u|e]; vnorm; [|reflexivity].
  split; [reflexivity|]. split; [reflexivity|]. split; [reflexivity|].
  split; [reflexivity|]. split; [reflexivity|].
  split.
  - cbn. repeat (apply List.Forall_cons;
                 [split; [reflexivity|]; first
                    [left; split; [reflexivity|]; eexists; split; reflexivity
                    |right; repeat split; reflexivity]|]).
    constructor.
  - cbn. tauto.
Qed.

End ViewerFacts.
